(** * Video metadata extraction of gifizer (src/lib/video-utils.ts)

    A shallow embedding of [src/lib/video-utils.ts]: the binary-parsing
    tier of [getVideoMetadata] (the byte readers, the MP4/MOV box walker,
    the AVI chunk walker, the format detector, the chunked-read strategy),
    the HTML5 and FFmpeg tiers and the cascade that tries them in turn, and
    the display helpers ([formatDuration], [formatFileSize],
    [getAspectRatioDisplay], [estimateGifSize], [formatEstimatedGifSize]).

    Modelling conventions.
    - A [Uint8Array] (and a [File]) is a [list byte]; [data[i]] out of
      range is [undefined], which every use in the source coerces to 0
      (bitwise operators) or compares unequal to 1, so [byteAt] returns 0
      there.
    - JS bitwise operators work on signed 32-bit integers; [toInt32] is the
      ECMAScript ToInt32 conversion on integers.
    - Offsets and sizes are integers ([Z]); quotients ([/]) are exact
      rationals ([Q]). Where the source can meet [NaN] or an infinity (the
      display helpers, the HTML5 readings) a JS number is [num]: a finite
      rational, [NaN] or a signed infinity, with IEEE rules for the special
      values and exact arithmetic on the finite ones (no rounding).
    - [Math.log(x) / Math.log(1024)] is the exact logarithm, and
      [Math.log2] is defined where its value is exact (the powers of two and
      the special values); elsewhere it is [None].
    - Every [while] loop of the source runs under a fuel bound; [None]
      means that the loop did not finish within the fuel, so a result
      [Some _] is what the JS code returns.
    - [getAspectRatioDisplay] works on IEEE doubles (Rocq's primitive
      floats [float], whose operations are the binary64 ones with rounding
      to nearest): its answer at the edge of the tolerance band depends on
      the rounding of the subtraction.
    - The browser (video element events, timers) is an input: the HTML5
      tiers are their checks and a step function over the events they
      receive, and the cascade takes each tier's outcome as given. *)

From Corelib Require Import PrimFloat.
From Stdlib Require Import ZArith QArith Qround Qabs Qpower Lia Lqa List String Ascii.
From Stdlib Require Import Strings.Byte DecimalString DecimalN.
Import ListNotations.
Open Scope Z_scope.

(** ** JS integer conversions and bitwise operators *)

Definition toUint32 (z : Z) : Z := z mod 2 ^ 32.

Definition toInt32 (z : Z) : Z :=
  let m := toUint32 z in if m <? 2 ^ 31 then m else m - 2 ^ 32.

(** [a << n] and [a | b]. *)
Definition js_shl (a n : Z) : Z := toInt32 (Z.shiftl (toUint32 a) (n mod 32)).
Definition js_or (a b : Z) : Z := toInt32 (Z.lor (toUint32 a) (toUint32 b)).

(** ** Byte buffers *)

Definition bytes := list byte.

Definition len (data : bytes) : Z := Z.of_nat (List.length data).

(** [data[i]], with [undefined] read as 0. *)
Definition byteAt (data : bytes) (i : Z) : Z :=
  if i <? 0 then 0
  else match nth_error data (Z.to_nat i) with
       | Some b => Z.of_nat (Byte.to_nat b)
       | None => 0
       end.

(** [Uint8Array.prototype.slice] / [Blob.prototype.slice] on integer
    arguments: negative indices count from the end, both are clamped. *)
Definition relIndex (n i : Z) : Z :=
  if i <? 0 then Z.max (n + i) 0 else Z.min i n.

Definition jsSlice (data : bytes) (s e : Z) : bytes :=
  let n := len data in
  let from := relIndex n s in
  let to := relIndex n e in
  firstn (Z.to_nat (to - from)) (skipn (Z.to_nat from) data).

(** [String.fromCharCode(...data.slice(offset, offset + length))] *)
Definition readString (data : bytes) (offset length : Z) : string :=
  string_of_list_ascii (map ascii_of_byte (jsSlice data offset (offset + length))).

Definition readUint32BE (data : bytes) (offset : Z) : Z :=
  js_or (js_or (js_or (js_shl (byteAt data offset) 24)
                      (js_shl (byteAt data (offset + 1)) 16))
               (js_shl (byteAt data (offset + 2)) 8))
        (byteAt data (offset + 3)).

Definition readUint32LE (data : bytes) (offset : Z) : Z :=
  js_or (js_or (js_or (byteAt data offset)
                      (js_shl (byteAt data (offset + 1)) 8))
               (js_shl (byteAt data (offset + 2)) 16))
        (js_shl (byteAt data (offset + 3)) 24).

(** Test buffers are written as lists of byte values. *)
Definition mk (l : list Z) : bytes :=
  map (fun z => match Byte.of_nat (Z.to_nat z) with Some b => b | None => x00 end) l.

Definition be32 (v : Z) : list Z :=
  [Z.shiftr v 24 mod 256; Z.shiftr v 16 mod 256; Z.shiftr v 8 mod 256; v mod 256].
Definition le32 (v : Z) : list Z := rev (be32 v).
Definition chars (s : string) : list Z :=
  map (fun c => Z.of_nat (nat_of_ascii c)) (list_ascii_of_string s).

(** ** Loops

    A [while (offset < end - 8) { ... }] loop whose body either leaves the
    loop ([break]) or moves to a new offset. The body is partial because it
    may itself run a nested loop under the same fuel. *)

Inductive loop_step (A : Type) : Type :=
| Break (a : A)
| Continue (offset : Z) (a : A).
Arguments Break {A} a.
Arguments Continue {A} offset a.

Fixpoint while_ {A} (fuel : nat) (cond : Z -> bool)
    (body : Z -> A -> option (loop_step A)) (offset : Z) (acc : A) : option A :=
  match fuel with
  | O => None
  | S f =>
      if cond offset then
        match body offset acc with
        | None => None
        | Some (Break a) => Some a
        | Some (Continue o a) => while_ f cond body o a
        end
      else Some acc
  end.

(** JS truthiness of an optional number field. *)
Definition truthy (o : option Z) : bool :=
  match o with Some v => negb (v =? 0) | None => false end.

Definition truthyQ (o : option Q) : bool :=
  match o with Some v => negb (Qeq_bool v 0) | None => false end.

Definition Qltb (x y : Q) : bool := negb (Qle_bool y x).

(** [Math.round]: the nearest integer, halves rounded up. *)
Definition mathRound (q : Q) : Z := Qfloor (q + (1 # 2)).

(** ** MP4 / MOV box walker *)

Record TrackResult := { tk_width : option Z; tk_height : option Z }.
Definition track_empty := {| tk_width := None; tk_height := None |}.

(** One iteration of the loop of [parseTrackAtom]. *)
Definition track_body (data : bytes) (endOffset : Z) (offset : Z)
    (result : TrackResult) : option (loop_step TrackResult) :=
  let atomSize := readUint32BE data offset in
  let atomType := readString data (offset + 4) 4 in
  if (atomSize =? 0) || (endOffset - offset <? atomSize) then Some (Break result)
  else if String.eqb atomType "tkhd" then
    let version := byteAt data (offset + 8) in
    let dimensionOffset := offset + 12 in
    let dimensionOffset :=
      if version =? 1 then dimensionOffset + 32 else dimensionOffset + 20 in
    let dimensionOffset := dimensionOffset + 36 in
    let widthFixed := readUint32BE data dimensionOffset in
    let heightFixed := readUint32BE data (dimensionOffset + 4) in
    Some (Break {| tk_width := Some (mathRound (inject_Z widthFixed / 65536)%Q);
                   tk_height := Some (mathRound (inject_Z heightFixed / 65536)%Q) |})
  else Some (Continue (offset + atomSize) result).

Definition parseTrackAtom (fuel : nat) (data : bytes) (startOffset size : Z)
    : option TrackResult :=
  let endOffset := startOffset + size in
  while_ fuel (fun offset => offset <? endOffset - 8)
    (track_body data endOffset) startOffset track_empty.

Record MoovResult := {
  mv_duration : option Z; mv_timescale : option Z;
  mv_width : option Z; mv_height : option Z }.
Definition moov_empty :=
  {| mv_duration := None; mv_timescale := None; mv_width := None; mv_height := None |}.

(** The [mvhd] branch of [parseMoovAtom]. *)
Definition moov_mvhd (data : bytes) (offset : Z) (result : MoovResult) : MoovResult :=
  let version := byteAt data (offset + 8) in
  let timeOffset := offset + 12 in
  if version =? 1 then
    let timeOffset := timeOffset + 16 in
    {| mv_timescale := Some (readUint32BE data timeOffset);
       mv_duration := Some (readUint32BE data (timeOffset + 8));
       mv_width := mv_width result; mv_height := mv_height result |}
  else
    let timeOffset := timeOffset + 8 in
    {| mv_timescale := Some (readUint32BE data timeOffset);
       mv_duration := Some (readUint32BE data (timeOffset + 4));
       mv_width := mv_width result; mv_height := mv_height result |}.

(** The [trak] branch of [parseMoovAtom], given the nested walk's result. *)
Definition moov_trak (trackData : TrackResult) (result : MoovResult) : MoovResult :=
  if truthy (tk_width trackData) && truthy (tk_height trackData) then
    {| mv_width := tk_width trackData; mv_height := tk_height trackData;
       mv_duration := mv_duration result; mv_timescale := mv_timescale result |}
  else result.

(** One iteration of the loop of [parseMoovAtom]. *)
Definition moov_body (fuel : nat) (data : bytes) (endOffset : Z) (offset : Z)
    (result : MoovResult) : option (loop_step MoovResult) :=
  let atomSize := readUint32BE data offset in
  let atomType := readString data (offset + 4) 4 in
  if (atomSize =? 0) || (endOffset - offset <? atomSize) then Some (Break result)
  else
    let result := if String.eqb atomType "mvhd" then moov_mvhd data offset result
                  else result in
    if String.eqb atomType "trak" then
      match parseTrackAtom fuel data (offset + 8) (atomSize - 8) with
      | None => None
      | Some trackData => Some (Continue (offset + atomSize) (moov_trak trackData result))
      end
    else Some (Continue (offset + atomSize) result).

Definition parseMoovAtom (fuel : nat) (data : bytes) (startOffset size : Z)
    : option MoovResult :=
  let endOffset := startOffset + size in
  while_ fuel (fun offset => offset <? endOffset - 8)
    (moov_body fuel data endOffset) startOffset moov_empty.

(** The offsets at which [while_] runs its body, in order; the last one
    is where the body breaks, if it does. *)
Fixpoint while_offsets {A} (fuel : nat) (cond : Z -> bool)
    (body : Z -> A -> option (loop_step A)) (offset : Z) (acc : A) : list Z :=
  match fuel with
  | O => []
  | S f =>
      if cond offset then
        match body offset acc with
        | Some (Continue o a) => offset :: while_offsets f cond body o a
        | _ => [offset]
        end
      else []
  end.

(** The box at [offset] of a [moov] body ending at [endOffset] as a
    qualifying track: a [trak] box passing the size checks whose track
    walk yields a non-zero width and a non-zero height. *)
Definition qualifyingTrak (fuel : nat) (data : bytes) (endOffset offset : Z)
    : option TrackResult :=
  let atomSize := readUint32BE data offset in
  if (atomSize =? 0) || (endOffset - offset <? atomSize) then None
  else if String.eqb (readString data (offset + 4) 4) "trak" then
    match parseTrackAtom fuel data (offset + 8) (atomSize - 8) with
    | Some t => if truthy (tk_width t) && truthy (tk_height t) then Some t else None
    | None => None
    end
  else None.

(** The dimensions of the last qualifying track of a sequence. *)
Definition dimsStep (dims : option Z * option Z) (o : option TrackResult)
    : option Z * option Z :=
  match o with Some t => (tk_width t, tk_height t) | None => dims end.

Definition lastDims (ts : list (option TrackResult)) : option Z * option Z :=
  fold_left dimsStep ts (None, None).

Record VideoMetadata := {
  duration : Q; width : Z; height : Z; aspectRatio : Q; fileSize : Z }.

(** The locals [duration], [width], [height], [timescale] of
    [tryParseMP4Chunk]. *)
Record Mp4Locals := { l_duration : Z; l_width : Z; l_height : Z; l_timescale : Z }.

Definition set_if (o : option Z) (v : Z) : Z :=
  match o with Some x => if truthy o then x else v | None => v end.

(** One iteration of the top-level loop of [tryParseMP4Chunk]. *)
Definition mp4_body (fuel : nat) (data : bytes) (offset : Z) (st : Mp4Locals)
    : option (loop_step Mp4Locals) :=
  let atomSize := readUint32BE data offset in
  let atomType := readString data (offset + 4) 4 in
  if (atomSize =? 0) || (len data - offset <? atomSize) then Some (Break st)
  else if String.eqb atomType "moov" then
    match parseMoovAtom fuel data (offset + 8)
            (Z.min (atomSize - 8) (len data - offset - 8)) with
    | None => None
    | Some movieData =>
        Some (Break {| l_duration := set_if (mv_duration movieData) (l_duration st);
                       l_timescale := set_if (mv_timescale movieData) (l_timescale st);
                       l_width := set_if (mv_width movieData) (l_width st);
                       l_height := set_if (mv_height movieData) (l_height st) |})
    end
  else Some (Continue (offset + atomSize) st).

Definition mp4_start := {| l_duration := 0; l_width := 0; l_height := 0; l_timescale := 0 |}.

(** Timescale conversion and record construction after the box walk. *)
Definition mp4_result (st : Mp4Locals) (fileSize : Z) : VideoMetadata :=
  let duration :=
    if (0 <? l_duration st) && (0 <? l_timescale st)
    then (inject_Z (l_duration st) / inject_Z (l_timescale st))%Q
    else inject_Z (l_duration st) in
  {| duration := duration; width := l_width st; height := l_height st;
     aspectRatio := if (0 <? l_width st) && (0 <? l_height st)
                    then (inject_Z (l_width st) / inject_Z (l_height st))%Q else 0%Q;
     fileSize := fileSize |}.

Definition tryParseMP4Chunk (fuel : nat) (file : bytes) (start size : Z)
    : option VideoMetadata :=
  let data := jsSlice file start (start + size) in
  match while_ fuel (fun offset => offset <? len data - 8)
          (mp4_body fuel data) 0 mp4_start with
  | None => None
  | Some st => Some (mp4_result st (len file))
  end.

(** ** Chunked-read strategy (MP4 path) *)

Inductive outcome := Ok (r : VideoMetadata) | Throw.

(** [result.duration > 0 && result.width > 0 && result.height > 0] *)
Definition isComplete (r : VideoMetadata) : bool :=
  Qltb 0 (duration r) && (0 <? width r) && (0 <? height r).

(** [parseMP4Metadata], also returning the windows [start, start + size)
    read from the file with [file.slice], in the order they are read. *)
Definition parseMP4Metadata (fuel : nat) (file : bytes)
    : list (Z * Z) * option outcome :=
  let size := len file in
  let headSize := Z.min (512 * 1024) size in
  let w1 := (0, 0 + headSize) in
  match tryParseMP4Chunk fuel file 0 headSize with
  | None => ([w1], None)
  | Some result =>
    if isComplete result then ([w1], Some (Ok result)) else
    let endChunkSize := Z.min (1024 * 1024) size in
    let endStart := Z.max 0 (size - endChunkSize) in
    let w2 := (endStart, endStart + endChunkSize) in
    match tryParseMP4Chunk fuel file endStart endChunkSize with
    | None => ([w1; w2], None)
    | Some result =>
      if isComplete result then ([w1; w2], Some (Ok result)) else
      if size <=? 10 * 1024 * 1024 then
        let w3 := (0, 0 + size) in
        match tryParseMP4Chunk fuel file 0 size with
        | None => ([w1; w2; w3], None)
        | Some result =>
            if isComplete result then ([w1; w2; w3], Some (Ok result))
            else ([w1; w2; w3], Some Throw)
        end
      else ([w1; w2], Some Throw)
    end
  end.

(** ** AVI chunk walker *)

Record AviHeader := {
  ah_width : option Z; ah_height : option Z;
  ah_frameRate : option Q; ah_totalFrames : option Z }.
Definition avih_empty :=
  {| ah_width := None; ah_height := None; ah_frameRate := None; ah_totalFrames := None |}.

(** [offset += 8 + chunkSize; if (chunkSize % 2 === 1) offset++;] *)
Definition riff_next (offset chunkSize : Z) : Z :=
  let offset := offset + 8 + chunkSize in
  if Z.rem chunkSize 2 =? 1 then offset + 1 else offset.

(** The [avih] branch of [parseAVIHeaderList]. *)
Definition avih_read (data : bytes) (offset : Z) (result : AviHeader) : AviHeader :=
  let microSecPerFrame := readUint32LE data (offset + 8) in
  let result := {| ah_totalFrames := Some (readUint32LE data (offset + 16));
                   ah_width := Some (readUint32LE data (offset + 32));
                   ah_height := Some (readUint32LE data (offset + 36));
                   ah_frameRate := ah_frameRate result |} in
  if 0 <? microSecPerFrame then
    {| ah_totalFrames := ah_totalFrames result; ah_width := ah_width result;
       ah_height := ah_height result;
       ah_frameRate := Some (inject_Z 1000000 / inject_Z microSecPerFrame)%Q |}
  else result.

(** One iteration of the loop of [parseAVIHeaderList]. *)
Definition avih_body (data : bytes) (offset : Z) (result : AviHeader)
    : option (loop_step AviHeader) :=
  let chunkId := readString data offset 4 in
  let chunkSize := readUint32LE data (offset + 4) in
  let result := if String.eqb chunkId "avih" then avih_read data offset result
                else result in
  Some (Continue (riff_next offset chunkSize) result).

Definition parseAVIHeaderList (fuel : nat) (data : bytes) (startOffset size : Z)
    : option AviHeader :=
  let endOffset := startOffset + size in
  while_ fuel (fun offset => offset <? endOffset - 8)
    (avih_body data) startOffset avih_empty.

(** The locals [width], [height], [frameRate], [totalFrames] of
    [parseAVIMetadata]. *)
Record AviLocals := { a_width : Z; a_height : Z; a_frameRate : Q; a_totalFrames : Z }.

Definition set_ifQ (o : option Q) (v : Q) : Q :=
  match o with Some x => if truthyQ o then x else v | None => v end.

(** One iteration of the top-level loop of [parseAVIMetadata]. *)
Definition avi_body (fuel : nat) (data : bytes) (offset : Z) (st : AviLocals)
    : option (loop_step AviLocals) :=
  let chunkId := readString data offset 4 in
  let chunkSize := readUint32LE data (offset + 4) in
  let next := riff_next offset chunkSize in
  if String.eqb chunkId "LIST" then
    let listType := readString data (offset + 8) 4 in
    if String.eqb listType "hdrl" then
      match parseAVIHeaderList fuel data (offset + 12) (chunkSize - 4) with
      | None => None
      | Some headerData =>
          Some (Continue next
            {| a_width := set_if (ah_width headerData) (a_width st);
               a_height := set_if (ah_height headerData) (a_height st);
               a_frameRate := set_ifQ (ah_frameRate headerData) (a_frameRate st);
               a_totalFrames := set_if (ah_totalFrames headerData) (a_totalFrames st) |})
      end
    else Some (Continue next st)
  else Some (Continue next st).

Definition avi_start := {| a_width := 0; a_height := 0; a_frameRate := 0; a_totalFrames := 0 |}.

(** Duration and the completeness check after the chunk walk. *)
Definition avi_result (st : AviLocals) (fileSize : Z) : outcome :=
  let duration :=
    if (0 <? a_totalFrames st) && Qltb 0 (a_frameRate st)
    then (inject_Z (a_totalFrames st) / a_frameRate st)%Q else 0%Q in
  if Qltb 0 duration && (0 <? a_width st) && (0 <? a_height st) then
    Ok {| duration := duration; width := a_width st; height := a_height st;
          aspectRatio := (inject_Z (a_width st) / inject_Z (a_height st))%Q;
          fileSize := fileSize |}
  else Throw.

Definition parseAVIMetadata (fuel : nat) (file : bytes) : option outcome :=
  let chunkSize := Z.min (64 * 1024) (len file) in
  let data := jsSlice file 0 chunkSize in
  match while_ fuel (fun offset => offset <? len data - 8)
          (avi_body fuel data) 12 avi_start with
  | None => None
  | Some st => Some (avi_result st (len file))
  end.

(** ** Format detector *)

Definition getVideoMetadataFromBinary (fuel : nat) (file : bytes) : option outcome :=
  let headerData := jsSlice file 0 12 in
  let signature := readString headerData 0 4 in
  if String.eqb signature "RIFF" then
    let aviSignature := readString headerData 8 4 in
    if String.eqb aviSignature "AVI " then parseAVIMetadata fuel file
    else snd (parseMP4Metadata fuel file)
  else snd (parseMP4Metadata fuel file).

(** ** Aspect-ratio labeler

    On doubles: each table entry is the double that JS computes for
    [16 / 9], [4 / 3], ..., and [tolerance] is the double nearest to 0.01,
    which is also what [1 / 100] rounds to. *)

Definition commonRatios : list (float * string) :=
  [((16 / 9)%float, "16:9"); ((4 / 3)%float, "4:3"); ((3 / 2)%float, "3:2");
   ((21 / 9)%float, "21:9"); ((1 / 1)%float, "1:1"); ((9 / 16)%float, "9:16");
   ((3 / 4)%float, "3:4"); ((2 / 3)%float, "2:3")]%string.

Definition tolerance : float := (1 / 100)%float.

(** [Math.abs(aspectRatio - ratio) < tolerance] *)
Definition withinTolerance (aspectRatio ratio : float) : bool :=
  PrimFloat.ltb (PrimFloat.abs (aspectRatio - ratio)%float) tolerance.

(** The [for ... of] loop over the table, returning at the first match. *)
Fixpoint firstMatch (aspectRatio : float) (l : list (float * string)) : string :=
  match l with
  | [] => ""%string
  | (ratio, display) :: rest =>
      if withinTolerance aspectRatio ratio then display
      else firstMatch aspectRatio rest
  end.

Definition getAspectRatioDisplay (aspectRatio : float) : string :=
  firstMatch aspectRatio commonRatios.

(** ** The chunked-read strategy as the spec states it (section 4.5)

    Windows are [start, end) pairs; attempts run in order and stop at the
    first complete result; when none is complete the strategy fails. *)

Definition mp4_windows_spec (fileSize : Z) : list (Z * Z) :=
  [(0, Z.min (512 * 1024) fileSize);
   (fileSize - Z.min (1024 * 1024) fileSize, fileSize)]
  ++ (if fileSize <=? 10 * 1024 * 1024 then [(0, fileSize)] else []).

Fixpoint first_complete (attempt : Z -> Z -> option VideoMetadata)
    (ws : list (Z * Z)) : list (Z * Z) * option outcome :=
  match ws with
  | [] => ([], Some Throw)
  | (s, e) :: rest =>
      match attempt s e with
      | None => ([(s, e)], None)
      | Some r =>
          if isComplete r then ([(s, e)], Some (Ok r))
          else let '(tr, o) := first_complete attempt rest in ((s, e) :: tr, o)
      end
  end.

(** "bytes [o .. o + |s| - 1] of [file] spell [s]" *)
Definition spells (file : bytes) (o : nat) (s : string) : bool :=
  if list_eq_dec Byte.byte_eq_dec (firstn (String.length s) (skipn o file))
       (map byte_of_ascii (list_ascii_of_string s)) then true else false.

(** ** Test buffers *)

Definition zeros (n : nat) : list Z := repeat 0 n.

Definition mvhd_v0 (timescale dur : Z) : list Z :=
  be32 32 ++ chars "mvhd" ++ [0; 0; 0; 0] ++ zeros 8 ++ be32 timescale ++ be32 dur ++ zeros 4.

Definition mvhd_v1 (timescale dur : Z) : list Z :=
  be32 44 ++ chars "mvhd" ++ [1; 0; 0; 0] ++ zeros 16 ++ be32 timescale
  ++ be32 0 ++ be32 dur ++ zeros 4.

Definition tkhd_v0 (w h : Z) : list Z :=
  be32 80 ++ chars "tkhd" ++ [0; 0; 0; 0] ++ zeros 56
  ++ be32 (w * 65536) ++ be32 (h * 65536) ++ zeros 4.

Definition trak (w h : Z) : list Z := be32 88 ++ chars "trak" ++ tkhd_v0 w h.

Definition box (tag : string) (body : list Z) : list Z :=
  be32 (8 + Z.of_nat (List.length body)) ++ chars tag ++ body.

(** A fast-start MP4: [ftyp], then [moov] with [mvhd] and one [trak]. *)
Definition mp4_file : bytes :=
  mk (box "ftyp" (zeros 8) ++ box "moov" (mvhd_v0 1000 5000 ++ trak 1280 720)).

(** A [moov] box with a version-1 [mvhd]. *)
Definition moov_v1 : bytes := mk (box "moov" (mvhd_v1 600 3000)).

(** A [moov] box with two video tracks. *)
Definition moov_two_traks : bytes :=
  mk (box "moov" (mvhd_v0 1000 5000 ++ trak 1280 720 ++ trak 640 480)).

(** An AVI whose first chunk is an empty [JUNK] chunk, followed by the
    [hdrl] list: 25 fps, 50 frames, 320x240. *)
Definition avih_chunk : list Z :=
  chars "avih" ++ le32 56 ++ le32 40000 ++ zeros 4 ++ le32 50 ++ zeros 12
  ++ le32 320 ++ le32 240 ++ zeros 16.
Definition avi_file : bytes :=
  mk (chars "RIFF" ++ le32 100 ++ chars "AVI " ++ chars "JUNK" ++ le32 0
      ++ chars "LIST" ++ le32 (Z.of_nat (4 + List.length avih_chunk))
      ++ chars "hdrl" ++ avih_chunk).

(** An [hdrl] list body holding one chunk whose declared size is the odd
    value [0xFFFFFFFF]. *)
Definition odd_huge_chunk : bytes := mk (chars "JUNK" ++ le32 4294967295 ++ zeros 8).

(** Two boxes whose sizes send the top-level MP4 walk from offset 0 to 16
    and back: the second size is [0xFFFFFFF0]. *)
Definition cycling_mp4 : bytes :=
  mk (be32 16 ++ chars "free" ++ zeros 8 ++ be32 4294967280 ++ chars "free" ++ zeros 8).

(** A 16-byte file holding one [free] box. *)
Definition free_box : bytes := mk (box "free" (zeros 8)).

(** A 20-byte AVI: the RIFF header and one empty [JUNK] chunk. *)
Definition tiny_avi : bytes :=
  mk (chars "RIFF" ++ le32 12 ++ chars "AVI " ++ chars "JUNK" ++ le32 0).

(** A 6-byte file starting with "RIFF". *)
Definition short_file : bytes := mk (chars "RIFF" ++ [0; 0]).

(** ** The size fields a walk reads

    A state of a walk is a level, the end offset of that level and the
    offset of a box or chunk header. [reachable succ start] holds of the
    states met from [start] by following [succ]. *)
Inductive reachable {P : Type} (succ : P -> list P) (start : P) : P -> Prop :=
| reach_start : reachable succ start start
| reach_step (p q : P) : reachable succ start p -> In q (succ p) -> reachable succ start q.

(** A finite list holding [start] and closed under [succ]. *)
Definition closedUnder {P : Type} (eqb : P -> P -> bool) (succ : P -> list P) (start : P)
    (ps : list P) : bool :=
  existsb (eqb start) ps &&
  forallb (fun p => forallb (fun q => existsb (eqb q) ps) (succ p)) ps.

(** Breadth-first exploration, to build such a list for a test file. *)
Fixpoint explore {P : Type} (eqb : P -> P -> bool) (succ : P -> list P) (fuel : nat)
    (ps : list P) : list P :=
  match fuel with
  | O => ps
  | S f => explore eqb succ f
             (ps ++ filter (fun q => negb (existsb (eqb q) ps)) (flat_map succ ps))
  end.

Definition walk_state_eqb {L : Type} (leqb : L -> L -> bool) (p q : L * Z * Z) : bool :=
  let '(l, e, o) := p in
  let '(l', e', o') := q in
  leqb l l' && (e =? e') && (o =? o').

Inductive mp4_level := LTop | LMoov | LTrak.

Definition mp4_level_eqb (a b : mp4_level) : bool :=
  match a, b with
  | LTop, LTop | LMoov, LMoov | LTrak, LTrak => true
  | _, _ => false
  end.

(** Whether a level of the MP4 walk goes on after a box of type
    [atomType] that passed the size checks: the top level stops after
    [moov], the track level after [tkhd]. *)
Definition mp4_continues (l : mp4_level) (atomType : string) : bool :=
  match l with
  | LTop => negb (String.eqb atomType "moov")
  | LMoov => true
  | LTrak => negb (String.eqb atomType "tkhd")
  end.

(** The headers the MP4 walk reads next after reading the box header at
    [offset] of a level ending at [endOffset]: the next box of the same
    level, and the first box inside a [moov] (top level) or [trak]
    ([moov] level) box, with the end offsets [mp4_body] and [moov_body]
    pass to the nested walks. *)
Definition mp4_succ (data : bytes) (p : mp4_level * Z * Z) : list (mp4_level * Z * Z) :=
  let '(l, endOffset, offset) := p in
  let atomSize := readUint32BE data offset in
  let atomType := readString data (offset + 4) 4 in
  if (offset <? endOffset - 8) && negb ((atomSize =? 0) || (endOffset - offset <? atomSize))
  then
    (if mp4_continues l atomType then [(l, endOffset, offset + atomSize)] else []) ++
    match l with
    | LTop =>
        if String.eqb atomType "moov"
        then [(LMoov, offset + 8 + Z.min (atomSize - 8) (len data - offset - 8), offset + 8)]
        else []
    | LMoov =>
        if String.eqb atomType "trak" then [(LTrak, offset + 8 + (atomSize - 8), offset + 8)]
        else []
    | LTrak => []
    end
  else [].

Definition mp4_root (data : bytes) : mp4_level * Z * Z := (LTop, len data, 0).

(** Every size field that the MP4 walk of [data] reads (at a header
    offset [o] below [endOffset - 8]) has its top bit clear. *)
Definition mp4_sizes_nonneg (data : bytes) : Prop :=
  forall l E o, reachable (mp4_succ data) (mp4_root data) (l, E, o) -> o < E - 8 ->
    0 <= readUint32BE data o.

Definition mp4_sizes_check (data : bytes) (ps : list (mp4_level * Z * Z)) : bool :=
  closedUnder (walk_state_eqb mp4_level_eqb) (mp4_succ data) (mp4_root data) ps &&
  forallb (fun p => let '(_, E, o) := p in implb (o <? E - 8) (0 <=? readUint32BE data o)) ps.

Inductive avi_level := ATop | AHdrl.

Definition avi_level_eqb (a b : avi_level) : bool :=
  match a, b with
  | ATop, ATop | AHdrl, AHdrl => true
  | _, _ => false
  end.

(** The chunk headers the AVI walk reads next after reading the one at
    [offset]: the next chunk of the same level, and the first chunk of an
    [hdrl] list met at the top level. *)
Definition avi_succ (data : bytes) (p : avi_level * Z * Z) : list (avi_level * Z * Z) :=
  let '(l, endOffset, offset) := p in
  if offset <? endOffset - 8 then
    let chunkSize := readUint32LE data (offset + 4) in
    (l, endOffset, riff_next offset chunkSize) ::
    match l with
    | ATop =>
        if String.eqb (readString data offset 4) "LIST" &&
           String.eqb (readString data (offset + 8) 4) "hdrl"
        then [(AHdrl, offset + 12 + (chunkSize - 4), offset + 12)]
        else []
    | AHdrl => []
    end
  else [].

Definition avi_root (data : bytes) : avi_level * Z * Z := (ATop, len data, 12).

(** Every size field that the AVI walk of [data] reads has its top bit
    clear. *)
Definition avi_sizes_nonneg (data : bytes) : Prop :=
  forall l E o, reachable (avi_succ data) (avi_root data) (l, E, o) -> o < E - 8 ->
    0 <= readUint32LE data (o + 4).

Definition avi_sizes_check (data : bytes) (ps : list (avi_level * Z * Z)) : bool :=
  closedUnder (walk_state_eqb avi_level_eqb) (avi_succ data) (avi_root data) ps &&
  forallb (fun p => let '(_, E, o) := p in implb (o <? E - 8) (0 <=? readUint32LE data (o + 4))) ps.

(** ** JS numbers

    [NaN] and the infinities of a JS number, next to its finite values;
    [-0] is not told apart from [0]. *)

Inductive num := Fin (q : Q) | NaN | PosInf | NegInf.

Definition isNaN (x : num) : bool := match x with NaN => true | _ => false end.

(** [x < y] *)
Definition jsLt (x y : num) : bool :=
  match x, y with
  | NaN, _ | _, NaN => false
  | Fin a, Fin b => Qltb a b
  | NegInf, NegInf | PosInf, _ | _, NegInf => false
  | NegInf, _ | _, PosInf => true
  end.

Definition jsLe (x y : num) : bool :=
  match x, y with
  | NaN, _ | _, NaN => false
  | _, _ => negb (jsLt y x)
  end.

(** Sign of a number other than [NaN]: -1, 0 or 1. *)
Definition jsSign (x : num) : Z :=
  match x with
  | Fin q => if Qltb 0 q then 1 else if Qltb q 0 then -1 else 0
  | PosInf => 1
  | NegInf => -1
  | NaN => 0
  end.

Definition infOfSign (s : Z) : num := if 0 <? s then PosInf else NegInf.

Definition jsAdd (x y : num) : num :=
  match x, y with
  | NaN, _ | _, NaN => NaN
  | PosInf, NegInf | NegInf, PosInf => NaN
  | PosInf, _ | _, PosInf => PosInf
  | NegInf, _ | _, NegInf => NegInf
  | Fin a, Fin b => Fin (a + b)
  end.

Definition jsMul (x y : num) : num :=
  match x, y with
  | NaN, _ | _, NaN => NaN
  | Fin a, Fin b => Fin (a * b)
  | _, _ =>
      let s := jsSign x * jsSign y in
      if s =? 0 then NaN else infOfSign s
  end.

Definition jsDiv (x y : num) : num :=
  match x, y with
  | NaN, _ | _, NaN => NaN
  | Fin a, Fin b =>
      if Qeq_bool b 0 then (if Qeq_bool a 0 then NaN else infOfSign (jsSign x))
      else Fin (a / b)
  | Fin _, _ => Fin 0
  | _, Fin b => infOfSign (jsSign x * (if Qltb b 0 then -1 else 1))
  | _, _ => NaN
  end.

(** [Math.round] *)
Definition jsRound (x : num) : num :=
  match x with Fin q => Fin (inject_Z (mathRound q)) | _ => x end.

(** ** Number to string

    [Number.prototype.toString] on a non-negative integer value: decimal
    digits below [10^21], exponential notation from there on. *)

Definition decimalString (n : Z) : string :=
  NilZero.string_of_uint (N.to_uint (Z.to_N n)).

Fixpoint dropZeros (l : list ascii) : list ascii :=
  match l with
  | "0"%char :: r => dropZeros r
  | _ => l
  end.

Definition intToString (n : Z) : string :=
  if n <? 10 ^ 21 then decimalString n
  else
    let ds := list_ascii_of_string (decimalString n) in
    let exponent := decimalString (Z.of_nat (List.length ds) - 1) in
    match rev (dropZeros (rev ds)) with
    | [] => ""
    | d :: [] => String d ("e+" ++ exponent)
    | d :: rest => String d ("." ++ string_of_list_ascii rest ++ "e+" ++ exponent)
    end%string.

(** [s.padStart(2, "0")] *)
Definition padStart2 (s : string) : string :=
  match String.length s with
  | 0%nat => "00"
  | 1%nat => String "0" s
  | _ => s
  end.

(** ** formatDuration *)

(** Truncation toward zero, and the JS remainder [x % y] on finite [y <> 0]. *)
Definition Qtrunc (q : Q) : Z := if Qle_bool 0 q then Qfloor q else - Qfloor (- q).
Definition jsQmod (x y : Q) : Q := x - y * inject_Z (Qtrunc (x / y)).

(** In exact arithmetic. On a whole number of seconds below [2^53] this is
    what the doubles of the source compute (see [formatDuration_clock]);
    on large or fractional inputs the rounding of [seconds / 3600] can
    differ. *)
Definition formatDuration (seconds : num) : string :=
  if isNaN seconds || jsLt seconds (Fin 0) then "00:00"%string
  else match seconds with
  | Fin s =>
      let hours := Qfloor (s / 3600) in
      let minutes := Qfloor (jsQmod s 3600 / 60) in
      let remainingSeconds := Qfloor (jsQmod s 60) in
      if 0 <? hours then
        (padStart2 (intToString hours) ++ ":" ++ padStart2 (intToString minutes)
         ++ ":" ++ padStart2 (intToString remainingSeconds))%string
      else
        (padStart2 (intToString minutes) ++ ":" ++ padStart2 (intToString remainingSeconds))%string
  | _ => "Infinity:NaN:NaN"%string
  end.


(** ** Reading a clock string back (test decoder) *)

Fixpoint splitColon (s : string) : list string :=
  match s with
  | EmptyString => [""%string]
  | String c r =>
      if Ascii.eqb c ":" then ""%string :: splitColon r
      else match splitColon r with
           | seg :: segs => String c seg :: segs
           | [] => [String c ""]
           end
  end.

Definition parseNat (s : string) : option Z :=
  option_map (fun d => Z.of_N (N.of_uint d)) (NilZero.uint_of_string s).

Definition parseClock (s : string) : option Z :=
  match map parseNat (splitColon s) with
  | [Some m; Some sec] => Some (m * 60 + sec)
  | [Some h; Some m; Some sec] => Some (h * 3600 + m * 60 + sec)
  | _ => None
  end.

(** A minutes or seconds field: two characters, a value below 60. *)
Definition clockField (seg : string) : Prop :=
  String.length seg = 2%nat /\ exists v, parseNat seg = Some v /\ 0 <= v < 60.

Fixpoint noColon (s : string) : bool :=
  match s with
  | EmptyString => true
  | String c r => negb (Ascii.eqb c ":") && noColon r
  end.


(** ** formatFileSize *)

(** [Math.floor(Math.log2(q))] for [q > 0], from the binary lengths of the
    numerator and denominator. *)
Definition ilog2Q (q : Q) : Z :=
  let e := Z.log2 (Qnum q) - Z.log2 (Zpos (Qden q)) in
  if Qle_bool (Qpower 2 e) q then e else e - 1.

Definition sizes : list string := ["B"; "KB"; "MB"; "GB"]%string.

(** [sizes[i]] in a template literal: ["undefined"] out of range. *)
Definition unitName (i : Z) : string :=
  if 0 <=? i then
    match nth_error sizes (Z.to_nat i) with Some s => s | None => "undefined"%string end
  else "undefined"%string.

(** The number [m / 100] for [m >= 0] as [Number.prototype.toString]
    prints it: no trailing zeros after the point. *)
Definition hundredthsString (m : Z) : string :=
  let ip := m / 100 in
  let fp := m mod 100 in
  if fp =? 0 then intToString ip
  else if fp mod 10 =? 0 then (intToString ip ++ "." ++ decimalString (fp / 10))%string
  else (intToString ip ++ "." ++ decimalString (fp / 10) ++ decimalString (fp mod 10))%string.

(** [parseFloat(x.toFixed(2))] in a template literal, for [0 <= x < 10^21]:
    [toFixed] takes the nearest hundredth, the larger one on a tie. *)
Definition toFixed2String (x : Q) : string := hundredthsString (Qfloor (x * 100 + (1 # 2))).

(** [Math.floor(Math.log(bytes) / Math.log(k))] is taken as the exact
    logarithm to base 1024, [Math.floor(Math.log2(bytes) / 10)]. *)
Definition formatFileSize (bytes : num) : string :=
  match bytes with
  | Fin q =>
      if Qeq_bool q 0 then "0 B"%string
      else if Qltb 0 q then
        let i := ilog2Q q / 10 in
        (toFixed2String (q / Qpower 1024 i) ++ " " ++ unitName i)%string
      else "NaN undefined"%string
  | _ => "NaN undefined"%string
  end.



(** ** formatEstimatedGifSize *)

Inductive WarningLevel := Safe | Warning | Danger.

(** The two fixed [message] texts. *)
Inductive SizeMessage := SizeLarge | SizeVeryLarge.

Record GifSizeInfo := {
  formatted : string; warningLevel : WarningLevel; message : option SizeMessage }.

Definition formatEstimatedGifSize (sizeInBytes : num) : GifSizeInfo :=
  let sizeMB := jsDiv sizeInBytes (Fin (1024 * 1024)) in
  let formatted := formatFileSize sizeInBytes in
  if jsLt sizeMB (Fin 8) then
    {| formatted := formatted; warningLevel := Safe; message := None |}
  else if jsLt sizeMB (Fin 12) then
    {| formatted := formatted; warningLevel := Warning; message := Some SizeLarge |}
  else
    {| formatted := formatted; warningLevel := Danger; message := Some SizeVeryLarge |}.

(** ** estimateGifSize *)

(** A JS value read from an object literal: a number, [undefined], or a
    non-number object (an inherited [Object.prototype] member). *)
Inductive jsval := VNum (x : num) | VUndefined | VObject.

Definition objectPrototypeKeys : list string :=
  ["constructor"; "__defineGetter__"; "__defineSetter__"; "hasOwnProperty";
   "__lookupGetter__"; "__lookupSetter__"; "isPrototypeOf"; "propertyIsEnumerable";
   "toString"; "valueOf"; "__proto__"; "toLocaleString"]%string.

(** [colorCounts[key]] for the literal [{ low: 64, medium: 128, high: 256 }]. *)
Definition colorCounts (key : string) : jsval :=
  if String.eqb key "low" then VNum (Fin 64)
  else if String.eqb key "medium" then VNum (Fin 128)
  else if String.eqb key "high" then VNum (Fin 256)
  else if existsb (String.eqb key) objectPrototypeKeys then VObject
  else VUndefined.

Definition numTruthy (x : num) : bool :=
  match x with Fin q => negb (Qeq_bool q 0) | NaN => false | _ => true end.

Definition jsTruthy (v : jsval) : bool :=
  match v with VNum x => numTruthy x | VUndefined => false | VObject => true end.

(** ToNumber: [undefined] and the [Object.prototype] members give [NaN]. *)
Definition toNumber (v : jsval) : num :=
  match v with VNum x => x | _ => NaN end.

(** [Math.log2] where its value is a rational: on [NaN], the infinities,
    zero, negative numbers and integer powers of two; [None] elsewhere. *)
Definition mathLog2 (x : num) : option num :=
  match x with
  | NaN | NegInf => Some NaN
  | PosInf => Some PosInf
  | Fin q =>
      if Qltb q 0 then Some NaN
      else if Qeq_bool q 0 then Some NegInf
      else if (Qden q =? 1)%positive && (Z.land (Qnum q) (Qnum q - 1) =? 0)
      then Some (Fin (inject_Z (Z.log2 (Qnum q))))
      else None
  end.

(** [VideoMetadata] as the JS object carries it, each field a JS number. *)
Record JsVideoMetadata := {
  m_duration : num; m_width : num; m_height : num; m_aspectRatio : num; m_fileSize : num }.

Definition jsOfMetadata (r : VideoMetadata) : JsVideoMetadata :=
  {| m_duration := Fin (duration r); m_width := Fin (inject_Z (width r));
     m_height := Fin (inject_Z (height r)); m_aspectRatio := Fin (aspectRatio r);
     m_fileSize := Fin (inject_Z (fileSize r)) |}.

(** The [settings] argument; [duration] is optional. *)
Record GifSettings := {
  g_size : num; g_frameRate : num; g_quality : string; g_duration : option num }.

(** The part of [estimateGifSize] from the color count on, given the
    target width, the rounded target height and the rounded frame count. *)
Definition gifSizeFromCounts (targetWidth targetHeight totalFrames : num) (quality : string)
    : option num :=
  let colorCount :=
    let c := colorCounts quality in if jsTruthy c then c else VNum (Fin 128) in
  match mathLog2 (toNumber colorCount) with
  | None => None
  | Some bitsPerPixel =>
      let bytesPerPixel := jsDiv bitsPerPixel (Fin 8) in
      let bytesPerFrame := jsMul (jsMul targetWidth targetHeight) bytesPerPixel in
      let baseSize := jsMul bytesPerFrame totalFrames in
      let formatOverhead := jsAdd (Fin 1024) (jsMul (toNumber colorCount) (Fin 3)) in
      let compressionRatio := Fin 2 in
      let estimatedSize := jsDiv (jsAdd baseSize formatOverhead) compressionRatio in
      Some (jsRound estimatedSize)
  end.

Definition estimateGifSize (metadata : JsVideoMetadata) (settings : GifSettings) : option num :=
  let targetWidth := g_size settings in
  let targetHeight := jsRound (jsDiv targetWidth (m_aspectRatio metadata)) in
  let duration :=
    match g_duration settings with
    | Some d => if numTruthy d then d else m_duration metadata
    | None => m_duration metadata
    end in
  let totalFrames := jsRound (jsMul duration (g_frameRate settings)) in
  gifSizeFromCounts targetWidth targetHeight totalFrames (g_quality settings).

Definition withQuality (s : GifSettings) (q : string) : GifSettings :=
  {| g_size := g_size s; g_frameRate := g_frameRate s; g_quality := q; g_duration := g_duration s |}.
Definition withDuration (s : GifSettings) (d : option num) : GifSettings :=
  {| g_size := g_size s; g_frameRate := g_frameRate s; g_quality := g_quality s; g_duration := d |}.

Definition withMdDuration (md : JsVideoMetadata) (d : num) : JsVideoMetadata :=
  {| m_duration := d; m_width := m_width md; m_height := m_height md;
     m_aspectRatio := m_aspectRatio md; m_fileSize := m_fileSize md |}.

Definition levelRank (l : WarningLevel) : Z :=
  match l with Safe => 0 | Warning => 1 | Danger => 2 end.


(** ** HTML5 validators *)

(** [video.duration] is a JS number; [videoWidth] and [videoHeight] are
    integers. *)
Inductive PrimaryError := DurationError | ResolutionError.

Definition html5Metadata (duration : num) (width height fileSize : Z) : JsVideoMetadata :=
  {| m_duration := duration; m_width := Fin (inject_Z width); m_height := Fin (inject_Z height);
     m_aspectRatio := jsDiv (Fin (inject_Z width)) (Fin (inject_Z height));
     m_fileSize := Fin (inject_Z fileSize) |}.

(** The checks of [video.onloadedmetadata] in [getVideoMetadataPrimary]. *)
Definition primaryValidate (duration : num) (width height fileSize : Z)
    : PrimaryError + JsVideoMetadata :=
  if isNaN duration || jsLe duration (Fin 0) then inl DurationError
  else if (width =? 0) || (height =? 0) || (width <=? 0) || (height <=? 0) then inl ResolutionError
  else inr (html5Metadata duration width height fileSize).

(** The test of [checkMetadata] in [getVideoMetadataFallback]. *)
Definition fallbackAccepts (duration : num) (width height : Z) : bool :=
  negb (isNaN duration) && jsLt (Fin 0) duration && (0 <? width) && (0 <? height).

(** ** The fallback tier's event handlers

    [checkMetadata] runs on [loadedmetadata], [loadeddata], [canplay] and
    [canplaythrough] with the readings of the moment; the 5-second timer
    and [onerror] are the other events. A promise settles once: a later
    [resolve] or [reject] does nothing. A cleared timer never fires. *)

Inductive FbReason := FbTimedOut | FbTooManyChecks | FbLoadFailed.

Inductive FbResult := FbResolved (m : JsVideoMetadata) | FbRejected (r : FbReason).

Inductive FbEvent :=
| EvCheck (duration : num) (width height : Z)
| EvTimeout
| EvError.

Record FbState := {
  fb_count : Z;                 (* metadataCheckCount *)
  fb_settled : option FbResult; (* the promise *)
  fb_timer : bool;              (* the timeout is still pending *)
  fb_inDom : bool }.            (* document.body.contains(video) *)

(** The state once the [try] block has appended the video and started
    loading. *)
Definition fb_start : FbState :=
  {| fb_count := 0; fb_settled := None; fb_timer := true; fb_inDom := true |}.

Definition maxMetadataChecks : Z := 10.

Definition settle (p : option FbResult) (r : FbResult) : option FbResult :=
  match p with Some _ => p | None => Some r end.

(** [clearTimeout], the guarded [removeChild], [revokeObjectURL], then
    [resolve] or [reject]. *)
Definition fb_finish (count : Z) (st : FbState) (r : FbResult) : FbState :=
  {| fb_count := count; fb_settled := settle (fb_settled st) r;
     fb_timer := false; fb_inDom := false |}.

Definition checkMetadata (fileSize : Z) (st : FbState) (duration : num) (width height : Z)
    : FbState :=
  let count := fb_count st + 1 in
  if fallbackAccepts duration width height then
    fb_finish count st (FbResolved (html5Metadata duration width height fileSize))
  else if maxMetadataChecks <=? count then
    fb_finish count st (FbRejected FbTooManyChecks)
  else
    {| fb_count := count; fb_settled := fb_settled st; fb_timer := fb_timer st;
       fb_inDom := fb_inDom st |}.

(** [onerror] calls [removeChild] without the [contains] guard: with the
    video already removed it throws before [reject]. *)
Definition fb_step (fileSize : Z) (st : FbState) (ev : FbEvent) : FbState :=
  match ev with
  | EvCheck d w h => checkMetadata fileSize st d w h
  | EvTimeout =>
      if fb_timer st then fb_finish (fb_count st) st (FbRejected FbTimedOut) else st
  | EvError =>
      if fb_inDom st then fb_finish (fb_count st) st (FbRejected FbLoadFailed)
      else {| fb_count := fb_count st; fb_settled := fb_settled st; fb_timer := false;
              fb_inDom := false |}
  end.

Definition fb_run (fileSize : Z) (evs : list FbEvent) (st : FbState) : FbState :=
  fold_left (fb_step fileSize) evs st.

Definition readingEvent (x : num * Z * Z) : FbEvent :=
  let '(d, w, h) := x in EvCheck d w h.
Definition readingAccepted (x : num * Z * Z) : bool :=
  let '(d, w, h) := x in fallbackAccepts d w h.

(** ** The FFmpeg tier *)

(** The methods of a converter class; [FFmpegConverter] is declared three
    times in src/lib/ffmpeg-wasm.ts. *)
Record ConverterClass := { classMethods : list string }.

Definition ffmpegConverterClasses : list ConverterClass :=
  [ {| classMethods := ["load"; "loadFontToFFmpegFS"; "convertToGif"; "terminate"] |};
    {| classMethods := ["testDrawtextSupport"; "load"; "convertToGif"; "terminate"] |};
    {| classMethods := ["load"; "convertToGif"; "terminate"] |} ]%string.

Inductive jsoutcome := JOk (m : JsVideoMetadata) | JThrow.

(** [converter] is [None] when the import fails or [getFFmpegConverter]
    returns [null]; [loadOk] is whether [converter.load()] resolves;
    [extract] is what [converter.extractMetadata(file)] would give. A
    method missing from the class and from [Object.prototype] reads as
    [undefined], and calling it throws a [TypeError]; every error is
    caught and re-thrown. *)
Definition getVideoMetadataWithFFmpeg (converter : option ConverterClass) (loadOk : bool)
    (extract : jsoutcome) : jsoutcome :=
  match converter with
  | None => JThrow
  | Some c =>
      if negb loadOk then JThrow
      else if existsb (String.eqb "extractMetadata") (classMethods c)
                || existsb (String.eqb "extractMetadata") objectPrototypeKeys
      then extract else JThrow
  end.

(** ** getVideoMetadata *)

Inductive Tier := Binary | Primary | Fallback | FFmpeg.

(** The tiers in the order they run, with the result; the outcomes of the
    three browser tiers are inputs. *)
Definition getVideoMetadata (fuel : nat) (file : bytes) (primary fallback ffmpeg : jsoutcome)
    : option (list Tier * jsoutcome) :=
  match getVideoMetadataFromBinary fuel file with
  | None => None
  | Some (Ok r) => Some ([Binary], JOk (jsOfMetadata r))
  | Some Throw =>
      match primary with
      | JOk m => Some ([Binary; Primary], JOk m)
      | JThrow =>
          match fallback with
          | JOk m => Some ([Binary; Primary; Fallback], JOk m)
          | JThrow =>
              match ffmpeg with
              | JOk m => Some ([Binary; Primary; Fallback; FFmpeg], JOk m)
              | JThrow => Some ([Binary; Primary; Fallback; FFmpeg], JThrow)
              end
          end
      end
  end.


(** Unsettled states keep the timer; settled ones have cleared it. *)
Definition fb_inv (st : FbState) : Prop :=
  match fb_settled st with None => fb_timer st = true /\ fb_inDom st = true
  | Some _ => fb_timer st = false end.

Definition isInfOrNaN (x : num) : Prop := x = PosInf \/ x = NaN.

(** ** Test inputs *)

Definition md0 : JsVideoMetadata :=
  {| m_duration := Fin 10; m_width := Fin 1280; m_height := Fin 720;
     m_aspectRatio := Fin (16 # 9); m_fileSize := Fin 1000000 |}.
Definition s0 : GifSettings :=
  {| g_size := Fin 480; g_frameRate := Fin 15; g_quality := "medium"; g_duration := None |}%string.
Definition bigFile1 : bytes := repeat x00 (Z.to_nat 10485761).
Definition bigFile2 : bytes :=
  repeat x00 (Z.to_nat 524288) ++ repeat x01 (Z.to_nat 8912897) ++ repeat x00 (Z.to_nat 1048576).

Ltac close_hyp :=
  first [ reflexivity | lia | (vm_compute; let Hc := fresh in intro Hc; discriminate Hc)
        | (vm_compute; reflexivity) | (cbn; tauto) ].


(** * Properties *)

(** ** Slices and strings *)

Lemma len_nonneg (l : bytes) : 0 <= len l.
Proof. unfold len; lia. Qed.

Lemma jsSlice_nonneg (l : bytes) (a b : Z) :
  0 <= a <= b ->
  jsSlice l a b = firstn (Z.to_nat (b - a)) (skipn (Z.to_nat a) l).
Proof.
  intros Hab. unfold jsSlice, relIndex, len.
  destruct (a <? 0) eqn:Ha; [lia|]. destruct (b <? 0) eqn:Hb; [lia|].
  destruct (Z_le_gt_dec a (Z.of_nat (List.length l))) as [Hl|Hl].
  - rewrite (Z.min_l a) by lia.
    destruct (Z_le_gt_dec b (Z.of_nat (List.length l))) as [Hb'|Hb'].
    + rewrite Z.min_l by lia. reflexivity.
    + rewrite Z.min_r by lia.
      rewrite !firstn_all2; [reflexivity| |]; rewrite length_skipn; lia.
  - rewrite Z.min_r by lia.
    rewrite !skipn_all2 by lia. rewrite !firstn_nil. reflexivity.
Qed.

Lemma jsSlice_whole (l : bytes) : jsSlice l 0 (len l) = l.
Proof.
  rewrite jsSlice_nonneg by (pose proof (len_nonneg l); lia).
  unfold len. rewrite Z.sub_0_r, Nat2Z.id. apply firstn_all.
Qed.

Lemma bytes_of_readString (l : bytes) :
  map byte_of_ascii (list_ascii_of_string (string_of_list_ascii (map ascii_of_byte l))) = l.
Proof.
  rewrite list_ascii_of_string_of_list_ascii, map_map.
  rewrite (map_ext _ id) by apply byte_of_ascii_of_byte. apply map_id.
Qed.

Lemma readString_eqb (data : bytes) (o k : Z) (s : string) :
  String.eqb (readString data o k) s =
  if list_eq_dec Byte.byte_eq_dec (jsSlice data o (o + k))
       (map byte_of_ascii (list_ascii_of_string s)) then true else false.
Proof.
  unfold readString.
  destruct (list_eq_dec _ _ _) as [E|E].
  - apply String.eqb_eq. rewrite E, map_map.
    rewrite (map_ext _ id) by apply ascii_of_byte_of_ascii.
    rewrite map_id. apply string_of_list_ascii_of_string.
  - apply String.eqb_neq. intros Hs. apply E. rewrite <- Hs.
    symmetry. apply bytes_of_readString.
Qed.

(** ** Byte readers *)

(** Claim C8 (code_bug). [readUint32BE] and [readUint32LE] combine the
    bytes with the signed 32-bit operators [<<] and [|], so a most
    significant byte of [0x80] or more gives a negative result: the
    bytes [80 00 00 00] read as [-2^31] rather than [2^31]. *)
Theorem readUint32_top_bit_negative :
  readUint32BE (mk [128; 0; 0; 0]) 0 = -2147483648 /\
  readUint32LE (mk [0; 0; 0; 128]) 0 = -2147483648 /\
  readUint32BE (mk [255; 255; 255; 240]) 0 = -16.
Proof. vm_compute. repeat split. Qed.

(** ** Format detector *)

(** Claim C7. The detector looks at the first 12 bytes only: when bytes
    0-3 spell "RIFF" and bytes 8-11 spell "AVI " it runs the AVI parser
    on the whole file; in every other case, RIFF files of another form
    type included, it runs the MP4/MOV parser on the whole file. *)
Theorem format_detector_dispatch (fuel : nat) (file : bytes) :
  getVideoMetadataFromBinary fuel file =
  if spells file 0 "RIFF" && spells file 8 "AVI "
  then parseAVIMetadata fuel file
  else snd (parseMP4Metadata fuel file).
Proof.
  unfold getVideoMetadataFromBinary, spells.
  rewrite !readString_eqb.
  rewrite !jsSlice_nonneg by lia.
  rewrite !skipn_O, firstn_firstn, skipn_firstn_comm, firstn_firstn.
  repeat match goal with
         | |- context [Z.to_nat ?z] =>
             let v := eval vm_compute in (Z.to_nat z) in change (Z.to_nat z) with v
         end.
  simpl Nat.min. simpl String.length.
  repeat match goal with
         | |- context [list_eq_dec ?d ?x ?y] => destruct (list_eq_dec d x y)
         end; reflexivity.
Qed.

(** ** Chunked-read strategy *)

(** Claim C1. [parseMP4Metadata] reads exactly the windows of the spec, in
    order: the head [0, min(512 KiB, size)), the tail made of the last
    [min(1 MiB, size)] bytes, and the whole file only when
    [size <= 10 MiB]; it stops at the first complete result and fails
    ([Throw]) when no attempt is complete. ([None] is a walk that did not
    finish within the fuel: the strategy then stops there too.) *)
Theorem parseMP4Metadata_windows (fuel : nat) (file : bytes) :
  parseMP4Metadata fuel file =
  first_complete (fun s e => tryParseMP4Chunk fuel file s (e - s))
    (mp4_windows_spec (len file)).
Proof.
  pose proof (len_nonneg file) as Hn.
  unfold parseMP4Metadata, mp4_windows_spec.
  set (n := len file) in *.
  set (h := Z.min (512 * 1024) n). set (m := Z.min (1024 * 1024) n).
  assert (Hm : 0 <= m <= n) by (unfold m; lia).
  replace (Z.max 0 (n - m)) with (n - m) by lia.
  replace (n - m + m) with n by lia.
  cbn [first_complete app].
  replace (n - (n - m)) with m by lia.
  rewrite !Z.add_0_l, !Z.sub_0_r.
  destruct (tryParseMP4Chunk fuel file 0 h) as [r1|]; [|reflexivity].
  destruct (isComplete r1); [reflexivity|].
  destruct (tryParseMP4Chunk fuel file (n - m) m) as [r2|]; [|reflexivity].
  destruct (isComplete r2); [reflexivity|].
  destruct (n <=? 10 * 1024 * 1024); cbn [first_complete]; [|reflexivity].
  rewrite Z.sub_0_r.
  destruct (tryParseMP4Chunk fuel file 0 n) as [r3|]; [|reflexivity].
  destruct (isComplete r3); reflexivity.
Qed.

(** ** MP4 box walker *)

Ltac box_guard Hz Hle :=
  apply Z.eqb_neq in Hz; apply Z.ltb_ge in Hle; rewrite Hz, Hle; cbn [orb].

(** Claim C3, as stated, fails: with the body of the [mvhd] box starting
    at box offset 8, a version-1 [mvhd] has its timescale read at body
    offset 20 (box offset 28), not at body offset 28. In [moov_v1] the
    timescale field holds 600 and body offset 28 holds the low duration
    word 3000. *)
Lemma mvhd_v1_body_offset_counterexample :
  match parseMoovAtom 10 moov_v1 8 (len moov_v1 - 8) with
  | Some r => mv_timescale r = Some 600 /\
              mv_timescale r <> Some (readUint32BE moov_v1 (8 + 8 + 28))
  | None => False
  end.
Proof. vm_compute. split; [reflexivity | discriminate]. Qed.

(** Claim C3 (corrected). An [mvhd] box met by the [moov] walk at
    [offset] (body at [offset + 8]) sets the timescale and duration from
    body offsets 12 and 16 when its version byte (body offset 0) is not
    1, and from body offsets 20 and 28 (box offsets 28 and 36: the low
    word of the 64-bit duration) when it is 1; the walk then moves to the
    next box. The top-level walk hands a non-zero duration and timescale
    found in [moov] on to its locals, and after the walk the duration is
    divided by the timescale when both are positive; otherwise (a zero
    timescale among them) the duration stays as read. The version-0 file
    [mp4_file] (timescale 1000, duration 5000) gives 5 s. *)
Theorem mvhd_fields (fuel : nat) (data : bytes) (endOffset offset : Z)
    (result : MoovResult) :
  readUint32BE data offset <> 0 ->
  readUint32BE data offset <= endOffset - offset ->
  readString data (offset + 4) 4 = "mvhd"%string ->
  moov_body fuel data endOffset offset result =
  Some (Continue (offset + readUint32BE data offset)
    (if byteAt data (offset + 8) =? 1
     then {| mv_timescale := Some (readUint32BE data (offset + 8 + 20));
             mv_duration := Some (readUint32BE data (offset + 8 + 28));
             mv_width := mv_width result; mv_height := mv_height result |}
     else {| mv_timescale := Some (readUint32BE data (offset + 8 + 12));
             mv_duration := Some (readUint32BE data (offset + 8 + 16));
             mv_width := mv_width result; mv_height := mv_height result |}))
  /\ (forall f bs o st m d ts,
        readUint32BE bs o <> 0 -> readUint32BE bs o <= len bs - o ->
        readString bs (o + 4) 4 = "moov"%string ->
        parseMoovAtom f bs (o + 8) (Z.min (readUint32BE bs o - 8) (len bs - o - 8)) = Some m ->
        mv_duration m = Some d -> d <> 0 -> mv_timescale m = Some ts -> ts <> 0 ->
        exists st', mp4_body f bs o st = Some (Break st') /\
          l_duration st' = d /\ l_timescale st' = ts)
  /\ (forall st n, 0 < l_duration st -> 0 < l_timescale st ->
        duration (mp4_result st n) = (inject_Z (l_duration st) / inject_Z (l_timescale st))%Q)
  /\ (forall st n, l_duration st <= 0 \/ l_timescale st <= 0 ->
        duration (mp4_result st n) = inject_Z (l_duration st))
  /\ match tryParseMP4Chunk 10 mp4_file 0 (len mp4_file) with
     | Some r => (duration r == 5)%Q
     | None => False
     end.
Proof.
  intros Hz Hle Ht. split; [|split; [|split; [|split]]].
  - unfold moov_body. box_guard Hz Hle. rewrite Ht. cbn [String.eqb].
    unfold moov_mvhd.
    replace (offset + 12 + 16) with (offset + 8 + 20) by lia.
    replace (offset + 8 + 20 + 8) with (offset + 8 + 28) by lia.
    replace (offset + 12 + 8) with (offset + 8 + 12) by lia.
    replace (offset + 8 + 12 + 4) with (offset + 8 + 16) by lia.
    destruct (byteAt data (offset + 8) =? 1); reflexivity.
  - intros f bs o st m d ts Hz' Hle' Ht' Hm Hd Hd0 Hts Hts0.
    unfold mp4_body. box_guard Hz' Hle'. rewrite Ht'. cbn [String.eqb].
    rewrite Hm. eexists. split; [reflexivity|]. cbn [l_duration l_timescale].
    rewrite Hd, Hts. unfold set_if, truthy.
    rewrite (proj2 (Z.eqb_neq d 0) Hd0), (proj2 (Z.eqb_neq ts 0) Hts0). split; reflexivity.
  - intros st n Hd Hts. unfold mp4_result. cbn [duration].
    rewrite (proj2 (Z.ltb_lt 0 (l_duration st)) Hd), (proj2 (Z.ltb_lt 0 (l_timescale st)) Hts).
    reflexivity.
  - intros st n [Hd|Hts]; unfold mp4_result; cbn [duration].
    + rewrite (proj2 (Z.ltb_ge 0 (l_duration st)) Hd). reflexivity.
    + rewrite (proj2 (Z.ltb_ge 0 (l_timescale st)) Hts), andb_false_r. reflexivity.
  - vm_compute. reflexivity.
Qed.

(** The rounding of [Math.round] is to a nearest integer. *)
Lemma mathRound_nearest (q : Q) :
  (q - (1 # 2) < inject_Z (mathRound q) <= q + (1 # 2))%Q.
Proof.
  unfold mathRound.
  pose proof (Qfloor_le (q + (1 # 2))) as H1.
  pose proof (Qlt_floor (q + (1 # 2))) as H2.
  rewrite inject_Z_plus in H2. change (inject_Z 1) with 1%Q in H2.
  set (f := inject_Z (Qfloor (q + (1 # 2)))) in *.
  split; lra.
Qed.

(** Claim C4. A [tkhd] box met by the track walk at [offset] ends the
    track walk with width and height read as 16.16 fixed-point words at
    [offset + 12 + p + 36] and 4 bytes further, where [p] is 32 for
    version 1 and 20 otherwise (the version byte being at [offset + 8]),
    each divided by 65536 and rounded to a nearest integer; raw
    [1280 * 65536] and [720 * 65536] give 1280 and 720. *)
Theorem tkhd_dimensions (data : bytes) (endOffset offset : Z)
    (result : TrackResult) :
  readUint32BE data offset <> 0 ->
  readUint32BE data offset <= endOffset - offset ->
  readString data (offset + 4) 4 = "tkhd"%string ->
  let dimensionOffset :=
    offset + 12 + (if byteAt data (offset + 8) =? 1 then 32 else 20) + 36 in
  track_body data endOffset offset result =
  Some (Break
    {| tk_width := Some (mathRound (inject_Z (readUint32BE data dimensionOffset) / 65536));
       tk_height :=
         Some (mathRound (inject_Z (readUint32BE data (dimensionOffset + 4)) / 65536)) |})
  /\ (forall q, q - (1 # 2) < inject_Z (mathRound q) <= q + (1 # 2))%Q
  /\ mathRound (inject_Z (1280 * 65536) / 65536) = 1280
  /\ mathRound (inject_Z (720 * 65536) / 65536) = 720.
Proof.
  intros Hz Hle Ht dimensionOffset. split; [|split; [|split]].
  - unfold track_body. box_guard Hz Hle. rewrite Ht. cbn [String.eqb].
    subst dimensionOffset.
    destruct (byteAt data (offset + 8) =? 1); reflexivity.
  - apply mathRound_nearest.
  - vm_compute. reflexivity.
  - vm_compute. reflexivity.
Qed.

(** One [moov] step keeps the dimensions unless the box is a qualifying
    track, whose dimensions it takes. *)
Lemma moov_step_dims (f : nat) (bs : bytes) (E o : Z) (r : MoovResult) (o' : Z) (r' : MoovResult) :
  moov_body f bs E o r = Some (Continue o' r') ->
  (mv_width r', mv_height r') = dimsStep (mv_width r, mv_height r) (qualifyingTrak f bs E o).
Proof.
  unfold moov_body, qualifyingTrak.
  destruct ((readUint32BE bs o =? 0) || (E - o <? readUint32BE bs o)); [discriminate|].
  destruct (String.eqb (readString bs (o + 4) 4) "trak") eqn:Tt.
  - apply String.eqb_eq in Tt. rewrite Tt. cbn [String.eqb].
    destruct (parseTrackAtom f bs (o + 8) (readUint32BE bs o - 8)) as [t|]; [|discriminate].
    intros H. injection H as _ <-. unfold moov_trak.
    destruct (truthy (tk_width t) && truthy (tk_height t)); reflexivity.
  - intros H. injection H as _ <-. cbn [dimsStep].
    destruct (String.eqb _ "mvhd"); [|reflexivity].
    unfold moov_mvhd. destruct (byteAt bs (o + 8) =? 1); reflexivity.
Qed.

Lemma moov_break_same (f : nat) (bs : bytes) (E o : Z) (r r' : MoovResult) :
  moov_body f bs E o r = Some (Break r') -> r' = r /\ qualifyingTrak f bs E o = None.
Proof.
  unfold moov_body, qualifyingTrak.
  destruct ((readUint32BE bs o =? 0) || (E - o <? readUint32BE bs o)).
  - intros H. injection H as <-. split; reflexivity.
  - destruct (String.eqb _ "trak"); [destruct (parseTrackAtom _ _ _ _)|]; discriminate.
Qed.

(** A quantity of the accumulator that each iteration updates from the
    offset it runs at follows the fold over [while_offsets]. *)
Lemma while_fold {A B C : Type} (cond : Z -> bool) (body : Z -> A -> option (loop_step A))
    (q : Z -> C) (dims : A -> B) (step : B -> C -> B) :
  (forall o a o' a', body o a = Some (Continue o' a') -> dims a' = step (dims a) (q o)) ->
  (forall o a a', body o a = Some (Break a') -> dims a' = step (dims a) (q o)) ->
  forall n o acc r, while_ n cond body o acc = Some r ->
  dims r = fold_left step (map q (while_offsets n cond body o acc)) (dims acc).
Proof.
  intros Hc Hb n. induction n as [|n IH]; intros o acc r H; [discriminate H|].
  cbn [while_ while_offsets] in *. destruct (cond o); [|injection H as <-; reflexivity].
  destruct (body o acc) as [[a|o' a]|] eqn:Hbody; [| |discriminate H].
  - injection H as <-. cbn [map fold_left]. exact (Hb o acc a Hbody).
  - cbn [map fold_left]. rewrite <- (Hc o acc o' a Hbody). exact (IH o' a r H).
Qed.

(** The [moov] walk ends with the dimensions of the last qualifying track
    among the boxes it visits, or those it started with if there is none. *)
Lemma moov_walk_dims (f : nat) (bs : bytes) (E : Z) (n : nat) (o : Z) (acc r : MoovResult) :
  while_ n (fun o => o <? E - 8) (moov_body f bs E) o acc = Some r ->
  (mv_width r, mv_height r) =
  fold_left dimsStep (map (qualifyingTrak f bs E)
    (while_offsets n (fun o => o <? E - 8) (moov_body f bs E) o acc))
    (mv_width acc, mv_height acc).
Proof.
  apply (while_fold _ _ (qualifyingTrak f bs E) (fun a => (mv_width a, mv_height a)) dimsStep).
  - intros o' a o'' a' B. exact (moov_step_dims f bs E o' a o'' a' B).
  - intros o' a a' B. destruct (moov_break_same f bs E o' a a' B) as [-> Hq].
    rewrite Hq. reflexivity.
Qed.

(** Claim C5, as stated, fails: of two [trak] boxes with non-zero
    dimensions, 1280x720 then 640x480, the [moov] walk keeps the second. *)
Lemma first_trak_counterexample :
  match parseMoovAtom 10 moov_two_traks 8 (len moov_two_traks - 8) with
  | Some r => mv_width r = Some 640 /\ mv_height r = Some 480
  | None => False
  end.
Proof. vm_compute. split; reflexivity. Qed.

(** Claim C5 (corrected). A [trak] box whose track walk yields non-zero
    width and height overwrites the dimensions gathered so far by the
    [moov] walk, whatever they were, and any other box leaves them as they
    are. So the [moov] walk ends with the width and height of the LAST
    qualifying [trak] among the boxes it visits (none if there is no such
    track). *)
Theorem later_trak_replaces (fuel : nat) (data : bytes) (endOffset offset : Z)
    (result : MoovResult) (t : TrackResult) :
  readUint32BE data offset <> 0 ->
  readUint32BE data offset <= endOffset - offset ->
  readString data (offset + 4) 4 = "trak"%string ->
  parseTrackAtom fuel data (offset + 8) (readUint32BE data offset - 8) = Some t ->
  truthy (tk_width t) = true -> truthy (tk_height t) = true ->
  (exists r',
    moov_body fuel data endOffset offset result =
      Some (Continue (offset + readUint32BE data offset) r') /\
    mv_width r' = tk_width t /\ mv_height r' = tk_height t /\
    mv_duration r' = mv_duration result /\ mv_timescale r' = mv_timescale result)
  /\ (forall f bs E o r o' r',
     moov_body f bs E o r = Some (Continue o' r') -> qualifyingTrak f bs E o = None ->
     mv_width r' = mv_width r /\ mv_height r' = mv_height r)
  /\ (forall f bs s size r, parseMoovAtom f bs s size = Some r ->
     (mv_width r, mv_height r) =
     lastDims (map (qualifyingTrak f bs (s + size))
       (while_offsets f (fun o => o <? s + size - 8) (moov_body f bs (s + size)) s moov_empty))).
Proof.
  intros Hz Hle Ht Htrak Hw Hh. split; [|split].
  - unfold moov_body. box_guard Hz Hle. rewrite Ht. cbn [String.eqb].
    rewrite Htrak. eexists. split; [reflexivity|].
    unfold moov_trak. rewrite Hw, Hh. cbn. repeat split.
  - intros f bs E o r o' r' Hb Hq. pose proof (moov_step_dims f bs E o r o' r' Hb) as D.
    rewrite Hq in D. injection D as -> ->. split; reflexivity.
  - intros f bs s size r Hp. unfold parseMoovAtom in Hp. unfold lastDims.
    exact (moov_walk_dims f bs (s + size) f s moov_empty r Hp).
Qed.

(** ** AVI chunk walker *)

(** Claim C6 (code_bug). The declared chunk size is read with the signed
    [readUint32LE], so the odd declared size [0xFFFFFFFF] reads as -1:
    [-1 % 2] is -1 in JS, no pad byte is skipped, and the next chunk is
    looked for at offset 7, not after a body of [0xFFFFFFFF] bytes and a
    pad byte. *)
Theorem avih_odd_size_without_pad :
  readUint32LE odd_huge_chunk 4 = -1 /\
  avih_body odd_huge_chunk 0 avih_empty = Some (Continue 7 avih_empty) /\
  7 <> 0 + 8 + 4294967295 + 1.
Proof. vm_compute. repeat split; discriminate. Qed.

(** ** Aspect-ratio labeler *)

Lemma Qltb_iff (x y : Q) : Qltb x y = true <-> (x < y)%Q.
Proof.
  unfold Qltb. destruct (Qle_bool y x) eqn:E; simpl.
  - apply Qle_bool_iff in E. split; [discriminate | intros; lra].
  - split; [intros _ | reflexivity].
    apply Qnot_le_lt. intros H. apply Qle_bool_iff in H. congruence.
Qed.

Lemma firstMatch_some (x : float) (tbl : list (float * string)) :
  firstMatch x tbl <> ""%string ->
  exists r, In (r, firstMatch x tbl) tbl /\ withinTolerance x r = true.
Proof.
  induction tbl as [|[r0 l0] tbl IH]; intros Hne; [contradiction Hne; reflexivity|].
  cbn [firstMatch] in *. destruct (withinTolerance x r0) eqn:E.
  - exists r0. split; [left; reflexivity | exact E].
  - destruct (IH Hne) as (r & Hi & Hw). exists r. split; [right; exact Hi | exact Hw].
Qed.

Lemma firstMatch_none (x : float) (tbl : list (float * string)) :
  (forall r l, In (r, l) tbl -> withinTolerance x r = false) ->
  firstMatch x tbl = ""%string.
Proof.
  induction tbl as [|[r0 l0] tbl IH]; intros Hn; [reflexivity|].
  cbn [firstMatch]. rewrite (Hn r0 l0) by (left; reflexivity).
  apply IH. intros r l Hi. apply (Hn r l). right. exact Hi.
Qed.

Lemma firstMatch_first (x : float) (pre post : list (float * string)) (r : float) (l : string) :
  withinTolerance x r = true ->
  (forall r' l', In (r', l') pre -> withinTolerance x r' = false) ->
  firstMatch x (pre ++ (r, l) :: post) = l.
Proof.
  induction pre as [|[r0 l0] pre IH]; intros Hw Hpre; cbn [firstMatch app].
  - rewrite Hw. reflexivity.
  - rewrite (Hpre r0 l0) by (left; reflexivity).
    apply IH; [exact Hw|]. intros r' l' Hi. apply (Hpre r' l'). right. exact Hi.
Qed.

(** Claim C10, as stated, fails: 1.77 (the double [177 / 100], which is
    the JS literal [1.77]) is within 0.01 of 16/9, so the labeler returns
    "16:9" for it. *)
Lemma aspect_177_counterexample :
  getAspectRatioDisplay (177 / 100)%float = "16:9"%string.
Proof. vm_compute. reflexivity. Qed.

(** Claim C10 (corrected). The labeler goes through the table (16:9, 4:3,
    3:2, 21:9, 1:1, 9:16, 3:4, 2:3) in order and returns the label of the
    first entry [r] with [|x - r| < 0.01] in double arithmetic, and the
    empty string when no entry passes; a non-empty answer is always the
    label of an entry that passes. 1920/1080 gives "16:9", 640/480 gives
    "4:3" and 1.77 gives "16:9". At 1.7877777777777777 (the hexadecimal
    literal below) the exact distance to 16/9 is below 0.01 but the
    rounded one is not, and the labeler returns the empty string. *)
Theorem aspect_label_within_tolerance :
  (forall x pre r l post, commonRatios = pre ++ (r, l) :: post ->
     withinTolerance x r = true ->
     (forall r' l', In (r', l') pre -> withinTolerance x r' = false) ->
     getAspectRatioDisplay x = l)
  /\ (forall x, (forall r l, In (r, l) commonRatios -> withinTolerance x r = false) ->
     getAspectRatioDisplay x = ""%string)
  /\ (forall x, getAspectRatioDisplay x <> ""%string ->
     exists r, In (r, getAspectRatioDisplay x) commonRatios /\ withinTolerance x r = true)
  /\ getAspectRatioDisplay (1920 / 1080)%float = "16:9"%string
  /\ getAspectRatioDisplay (640 / 480)%float = "4:3"%string
  /\ getAspectRatioDisplay (177 / 100)%float = "16:9"%string
  /\ getAspectRatioDisplay 0x1.c9abcdf012345p+0%float = ""%string.
Proof.
  split; [|split; [|split]].
  - intros x pre r l post Ht Hw Hpre. unfold getAspectRatioDisplay. rewrite Ht.
    exact (firstMatch_first x pre post r l Hw Hpre).
  - intros x Hn. exact (firstMatch_none x commonRatios Hn).
  - intros x Hne. exact (firstMatch_some x commonRatios Hne).
  - repeat split; vm_compute; reflexivity.
Qed.

(** ** Arithmetic of the byte readers *)

Lemma byteAt_range (d : bytes) (i : Z) : 0 <= byteAt d i <= 255.
Proof.
  unfold byteAt. destruct (i <? 0); [lia|].
  destruct (nth_error d (Z.to_nat i)) as [b|]; [|lia].
  pose proof (Byte.to_nat_bounded b). lia.
Qed.

Lemma byteAt_neg (d : bytes) (i : Z) : i < 0 -> byteAt d i = 0.
Proof. intros H. unfold byteAt. destruct (Z.ltb_spec i 0); [reflexivity | lia]. Qed.

Lemma byteAt_beyond (d : bytes) (i : Z) : len d <= i -> byteAt d i = 0.
Proof.
  intros H. unfold byteAt, len in *. destruct (i <? 0); [reflexivity|].
  rewrite (proj2 (nth_error_None d (Z.to_nat i))) by lia. reflexivity.
Qed.

Lemma lor_shift_add (a b k : Z) :
  0 <= k -> 0 <= b < 2 ^ k -> Z.lor (a * 2 ^ k) b = a * 2 ^ k + b.
Proof.
  intros Hk Hb.
  assert (Hl : Z.land (a * 2 ^ k) b = 0).
  { apply Z.bits_inj'. intros n Hn. rewrite Z.land_spec, Z.bits_0.
    destruct (Z_lt_le_dec n k).
    - rewrite Z.mul_pow2_bits_low by lia. reflexivity.
    - rewrite <- (Z.mod_small b (2 ^ k)) by lia.
      rewrite Z.mod_pow2_bits_high by lia. apply andb_false_r. }
  rewrite <- Z.lxor_lor by exact Hl. symmetry. apply Z.add_nocarry_lxor. exact Hl.
Qed.

Lemma toUint32_small (z : Z) : 0 <= z < 2 ^ 32 -> toUint32 z = z.
Proof. intros H. unfold toUint32. apply Z.mod_small. exact H. Qed.

Lemma toUint32_toInt32 (z : Z) : toUint32 (toInt32 z) = toUint32 z.
Proof.
  unfold toInt32, toUint32. destruct (z mod 2 ^ 32 <? 2 ^ 31).
  - apply Z.mod_mod. lia.
  - replace (z mod 2 ^ 32 - 2 ^ 32) with (z mod 2 ^ 32 + (-1) * 2 ^ 32) by ring.
    rewrite Z_mod_plus_full. apply Z.mod_mod. lia.
Qed.

Lemma js_shl_byte (b k : Z) :
  0 <= b <= 255 -> 0 <= k <= 24 -> toUint32 (js_shl b k) = b * 2 ^ k.
Proof.
  intros Hb Hk. unfold js_shl. rewrite toUint32_toInt32.
  rewrite (Z.mod_small k 32) by lia.
  rewrite (toUint32_small b) by lia.
  rewrite Z.shiftl_mul_pow2 by lia.
  assert (2 ^ k <= 2 ^ 24) by (apply Z.pow_le_mono_r; lia).
  assert (0 < 2 ^ k) by (apply Z.pow_pos_nonneg; lia).
  apply toUint32_small. split; [lia|]. change (2 ^ 32) with (256 * 2 ^ 24). nia.
Qed.

(** [readUint32BE] is ToInt32 of the big-endian value of the four bytes. *)
Lemma readUint32BE_value (d : bytes) (o : Z) :
  readUint32BE d o =
  toInt32 (byteAt d o * 16777216 + byteAt d (o + 1) * 65536
           + byteAt d (o + 2) * 256 + byteAt d (o + 3)).
Proof.
  pose proof (byteAt_range d o) as H0. pose proof (byteAt_range d (o + 1)) as H1.
  pose proof (byteAt_range d (o + 2)) as H2. pose proof (byteAt_range d (o + 3)) as H3.
  set (b0 := byteAt d o) in *. set (b1 := byteAt d (o + 1)) in *.
  set (b2 := byteAt d (o + 2)) in *. set (b3 := byteAt d (o + 3)) in *.
  unfold readUint32BE. fold b0 b1 b2 b3.
  unfold js_or at 1 2 3. rewrite !toUint32_toInt32.
  rewrite !js_shl_byte by lia. rewrite (toUint32_small b3) by lia.
  rewrite (lor_shift_add b0 (b1 * 2 ^ 16) 24) by lia.
  rewrite (toUint32_small (b0 * 2 ^ 24 + b1 * 2 ^ 16)) by lia.
  replace (b0 * 2 ^ 24 + b1 * 2 ^ 16) with ((b0 * 2 ^ 8 + b1) * 2 ^ 16) by ring.
  rewrite (lor_shift_add _ (b2 * 2 ^ 8) 16) by lia.
  rewrite toUint32_small by lia.
  replace ((b0 * 2 ^ 8 + b1) * 2 ^ 16 + b2 * 2 ^ 8)
    with ((b0 * 2 ^ 16 + b1 * 2 ^ 8 + b2) * 2 ^ 8) by ring.
  rewrite (lor_shift_add _ b3 8) by lia.
  f_equal. lia.
Qed.

Lemma toInt32_range (z : Z) :
  0 <= z < 4294967296 ->
  toInt32 z = if z <? 2147483648 then z else z - 4294967296.
Proof. intros H. unfold toInt32. rewrite toUint32_small by exact H. reflexivity. Qed.

(** ** Short files *)

Lemma parseMoovAtom_small (fuel : nat) (data : bytes) (s size : Z) :
  (1 <= fuel)%nat -> size <= 8 -> parseMoovAtom fuel data s size = Some moov_empty.
Proof.
  intros Hf Hs. destruct fuel as [|f]; [lia|].
  unfold parseMoovAtom. cbn [while_].
  destruct (Z.ltb_spec s (s + size - 8)); [lia | reflexivity].
Qed.

(** The big-endian size read at [s] when the walk of a buffer of fewer
    than 12 bytes reaches [s] from offset 0 by one box. *)
Lemma short_second_size (data : bytes) (s : Z) :
  len data < 12 ->
  readUint32BE data 0 = s -> s <> 0 -> s < len data - 8 ->
  readUint32BE data s = 0 \/ len data - s < readUint32BE data s.
Proof.
  intros Hn Hs Hs0 Hlt.
  rewrite readUint32BE_value in Hs |- *.
  change (0 + 1) with 1 in Hs. change (0 + 2) with 2 in Hs. change (0 + 3) with 3 in Hs.
  assert (Hb : forall i, 0 <= byteAt data i <= 255) by (intros; apply byteAt_range).
  assert (Hneg : forall i, i < 0 -> byteAt data i = 0) by (intros; apply byteAt_neg; lia).
  assert (Hc : s <= -4 \/ s = -3 \/ s = -2 \/ s = -1 \/ s = 1 \/ s = 2) by lia.
  pose proof (Hb 0) as B0. pose proof (Hb 1) as B1. pose proof (Hb 2) as B2.
  pose proof (Hb 3) as B3. pose proof (Hb 4) as B4. pose proof (Hb 5) as B5.
  rewrite toInt32_range in Hs by lia.
  destruct Hc as [Hc|[Hc|[Hc|[Hc|[Hc|Hc]]]]].
  - left. rewrite !Hneg by lia. reflexivity.
  - rewrite Hc in *. right. rewrite (Hneg (-3)), (Hneg (-3 + 1)), (Hneg (-3 + 2)) by lia.
    change (-3 + 3) with 0. rewrite toInt32_range by lia.
    destruct (Z.ltb_spec (byteAt data 0 * 16777216 + byteAt data 1 * 65536
               + byteAt data 2 * 256 + byteAt data 3) 2147483648) in Hs;
    destruct (Z.ltb_spec (0 * 16777216 + 0 * 65536 + 0 * 256 + byteAt data 0) 2147483648);
    lia.
  - rewrite Hc in *. right. rewrite (Hneg (-2)), (Hneg (-2 + 1)) by lia.
    change (-2 + 2) with 0. change (-2 + 3) with 1. rewrite toInt32_range by lia.
    destruct (Z.ltb_spec (byteAt data 0 * 16777216 + byteAt data 1 * 65536
               + byteAt data 2 * 256 + byteAt data 3) 2147483648) in Hs;
    destruct (Z.ltb_spec (0 * 16777216 + 0 * 65536 + byteAt data 0 * 256
               + byteAt data 1) 2147483648);
    lia.
  - rewrite Hc in *. right. rewrite (Hneg (-1)) by lia.
    change (-1 + 1) with 0. change (-1 + 2) with 1. change (-1 + 3) with 2.
    rewrite toInt32_range by lia.
    destruct (Z.ltb_spec (byteAt data 0 * 16777216 + byteAt data 1 * 65536
               + byteAt data 2 * 256 + byteAt data 3) 2147483648) in Hs;
    destruct (Z.ltb_spec (0 * 16777216 + byteAt data 0 * 65536 + byteAt data 1 * 256
               + byteAt data 2) 2147483648);
    lia.
  - rewrite Hc in *. right.
    change (1 + 1) with 2. change (1 + 2) with 3. change (1 + 3) with 4.
    rewrite toInt32_range by lia.
    destruct (Z.ltb_spec (byteAt data 0 * 16777216 + byteAt data 1 * 65536
               + byteAt data 2 * 256 + byteAt data 3) 2147483648) in Hs;
    destruct (Z.ltb_spec (byteAt data 1 * 16777216 + byteAt data 2 * 65536
               + byteAt data 3 * 256 + byteAt data 4) 2147483648);
    lia.
  - rewrite Hc in *. right.
    change (2 + 1) with 3. change (2 + 2) with 4. change (2 + 3) with 5.
    rewrite toInt32_range by lia.
    destruct (Z.ltb_spec (byteAt data 0 * 16777216 + byteAt data 1 * 65536
               + byteAt data 2 * 256 + byteAt data 3) 2147483648) in Hs;
    destruct (Z.ltb_spec (byteAt data 2 * 16777216 + byteAt data 3 * 65536
               + byteAt data 4 * 256 + byteAt data 5) 2147483648);
    lia.
Qed.

Lemma mp4_walk_short (k f : nat) (data : bytes) :
  (1 <= f)%nat -> len data < 12 ->
  exists st,
    while_ (S (S k)) (fun offset => offset <? len data - 8) (mp4_body f data) 0 mp4_start
      = Some st /\ l_width st = 0.
Proof.
  intros Hf Hn. cbn [while_].
  destruct (Z.ltb_spec 0 (len data - 8)) as [C0|C0]; [|eexists; split; reflexivity].
  unfold mp4_body at 1.
  destruct ((readUint32BE data 0 =? 0) || (len data - 0 <? readUint32BE data 0)) eqn:B0.
  { eexists; split; reflexivity. }
  apply orb_false_iff in B0 as [B0a B0b].
  apply Z.eqb_neq in B0a. apply Z.ltb_ge in B0b.
  destruct (String.eqb (readString data (0 + 4) 4) "moov").
  { rewrite parseMoovAtom_small by lia. eexists; split; reflexivity. }
  cbn [while_]. rewrite Z.add_0_l.
  destruct (Z.ltb_spec (readUint32BE data 0) (len data - 8)) as [C1|C1];
    [|eexists; split; reflexivity].
  unfold mp4_body.
  destruct (short_second_size data (readUint32BE data 0) Hn eq_refl B0a C1) as [E|E].
  - rewrite E. eexists; split; reflexivity.
  - rewrite (proj2 (Z.ltb_lt _ _) E), orb_true_r. eexists; split; reflexivity.
Qed.

Lemma tryParseMP4Chunk_short (k : nat) (file : bytes) :
  len file < 12 ->
  exists r, tryParseMP4Chunk (S (S k)) file 0 (len file) = Some r /\ isComplete r = false.
Proof.
  intros Hn. unfold tryParseMP4Chunk. rewrite Z.add_0_l, jsSlice_whole.
  destruct (mp4_walk_short k (S (S k)) file ltac:(lia) Hn) as [st [E W]].
  rewrite E. eexists; split; [reflexivity|].
  unfold isComplete, mp4_result. cbn [width]. rewrite W.
  destruct (Qltb _ _); reflexivity.
Qed.

(** ** Results of the binary tier *)

Lemma isComplete_spec (r : VideoMetadata) :
  isComplete r = true -> (0 < duration r)%Q /\ 0 < width r /\ 0 < height r.
Proof.
  unfold isComplete. intros H.
  apply andb_true_iff in H as [H H3]. apply andb_true_iff in H as [H1 H2].
  apply Qltb_iff in H1. apply Z.ltb_lt in H2. apply Z.ltb_lt in H3. auto.
Qed.

Lemma tryParseMP4Chunk_record (fuel : nat) (file : bytes) (s z : Z) (r : VideoMetadata) :
  tryParseMP4Chunk fuel file s z = Some r -> isComplete r = true ->
  fileSize r = len file /\
  aspectRatio r = (inject_Z (width r) / inject_Z (height r))%Q.
Proof.
  unfold tryParseMP4Chunk. destruct (while_ _ _ _ _ _) as [st|]; [|discriminate].
  intros H Hc. injection H as <-.
  pose proof (isComplete_spec _ Hc) as (_ & Hw & Hh). cbn in Hw, Hh |- *.
  rewrite (proj2 (Z.ltb_lt _ _) Hw), (proj2 (Z.ltb_lt _ _) Hh). split; reflexivity.
Qed.

Ltac split_matches H :=
  repeat match type of H with
         | context [match ?x with _ => _ end] =>
             let E := fresh "E" in destruct x eqn:E
         end.

Lemma parseMP4Metadata_ok (fuel : nat) (file : bytes) (r : VideoMetadata) :
  snd (parseMP4Metadata fuel file) = Some (Ok r) ->
  isComplete r = true /\ fileSize r = len file /\
  aspectRatio r = (inject_Z (width r) / inject_Z (height r))%Q.
Proof.
  unfold parseMP4Metadata. intros H. split_matches H; cbn in H;
    try discriminate H; injection H as <-;
    match goal with
    | Ht : tryParseMP4Chunk _ _ _ _ = Some ?r, Hc : isComplete ?r = true |- _ =>
        split; [exact Hc | exact (tryParseMP4Chunk_record _ _ _ _ _ Ht Hc)]
    end.
Qed.

Lemma parseAVIMetadata_ok (fuel : nat) (file : bytes) (r : VideoMetadata) :
  parseAVIMetadata fuel file = Some (Ok r) ->
  isComplete r = true /\ fileSize r = len file /\
  aspectRatio r = (inject_Z (width r) / inject_Z (height r))%Q.
Proof.
  unfold parseAVIMetadata. destruct (while_ _ _ _ _ _) as [st|]; [|discriminate].
  intros H. injection H as H. unfold avi_result in H.
  destruct (Qltb 0 _ && (0 <? a_width st) && (0 <? a_height st)) eqn:C;
    [|discriminate H].
  injection H as <-. split; [unfold isComplete; exact C | split; reflexivity].
Qed.

(** Claim C2. A success of the binary tier (MP4 or AVI path) is a
    complete record: positive duration, width and height, aspect ratio
    [width / height], and the size of the whole file. A file of fewer
    than 12 bytes, the empty file included, never makes it hang or
    succeed: it fails ([Throw]) once the fuel allows the two box
    iterations such a file can take. *)
Theorem binary_tier_results (k : nat) :
  (forall fuel file r,
     getVideoMetadataFromBinary fuel file = Some (Ok r) ->
     (0 < duration r)%Q /\ 0 < width r /\ 0 < height r /\
     aspectRatio r = (inject_Z (width r) / inject_Z (height r))%Q /\
     fileSize r = len file)
  /\ (forall file, (List.length file < 12)%nat ->
        getVideoMetadataFromBinary (S (S k)) file = Some Throw).
Proof.
  split.
  - intros fuel file r H.
    assert (Hr : isComplete r = true /\ fileSize r = len file /\
                 aspectRatio r = (inject_Z (width r) / inject_Z (height r))%Q).
    { unfold getVideoMetadataFromBinary in H.
      destruct (String.eqb _ "RIFF"); [destruct (String.eqb _ "AVI ")|].
      - exact (parseAVIMetadata_ok _ _ _ H).
      - exact (parseMP4Metadata_ok _ _ _ H).
      - exact (parseMP4Metadata_ok _ _ _ H). }
    destruct Hr as (Hc & Hs & Ha).
    destruct (isComplete_spec r Hc) as (Hd & Hw & Hh). auto.
  - intros file Hl.
    assert (Hn : len file < 12) by (unfold len; lia).
    pose proof (len_nonneg file) as H0.
    assert (HM : snd (parseMP4Metadata (S (S k)) file) = Some Throw).
    { unfold parseMP4Metadata.
      replace (Z.min (512 * 1024) (len file)) with (len file) by lia.
      replace (Z.min (1024 * 1024) (len file)) with (len file) by lia.
      replace (Z.max 0 (len file - len file)) with 0 by lia.
      destruct (tryParseMP4Chunk_short k file Hn) as [r [E C]].
      rewrite E, C. rewrite (proj2 (Z.leb_le _ _)) by lia. reflexivity. }
    assert (HA : parseAVIMetadata (S (S k)) file = Some Throw).
    { unfold parseAVIMetadata.
      replace (Z.min (64 * 1024) (len file)) with (len file) by lia.
      rewrite jsSlice_whole. cbn [while_].
      rewrite (proj2 (Z.ltb_ge _ _)) by lia. reflexivity. }
    unfold getVideoMetadataFromBinary.
    destruct (String.eqb _ "RIFF"); [destruct (String.eqb _ "AVI ")|]; assumption.
Qed.

(** ** Termination of the walks when the sizes they read are non-negative *)

Section Termination.
Context {A : Type}.
Variable E : Z.
Variable Inv : Z -> Prop.
Variable body : nat -> Z -> A -> option (loop_step A).

(** Each iteration at an offset satisfying [Inv], given enough fuel for
    its nested walks, has a fixed result, and a [Continue] moves strictly
    forward to an offset satisfying [Inv]. *)
Hypothesis body_progress : forall o a, Inv o -> o < E ->
  exists F r, (forall f, (F <= f)%nat -> body f o a = Some r) /\
    match r with Break _ => True | Continue o' _ => o < o' /\ Inv o' end.

Lemma while_eventually (o : Z) (a : A) :
  Inv o ->
  exists F r, forall n f, (F <= n)%nat -> (F <= f)%nat ->
    while_ n (fun offset => offset <? E) (body f) o a = Some r.
Proof.
  remember (Z.to_nat (E - o)) as m eqn:Hm. revert o a Hm.
  induction m as [m IH] using lt_wf_ind. intros o a Hm Ho.
  destruct (Z_lt_le_dec o E) as [Hlt|Hge].
  - destruct (body_progress o a Ho Hlt) as (F1 & r & Hb & Hp).
    destruct r as [a'|o' a'].
    + exists (S F1), a'. intros n f Hn Hf. destruct n as [|n]; [lia|].
      cbn [while_]. rewrite (proj2 (Z.ltb_lt _ _) Hlt), Hb by lia. reflexivity.
    + destruct Hp as [Hp Hi].
      destruct (IH (Z.to_nat (E - o')) ltac:(lia) o' a' eq_refl Hi) as (F2 & r2 & H2).
      exists (S (Nat.max F1 F2)), r2. intros n f Hn Hf.
      destruct n as [|n]; [lia|]. cbn [while_].
      rewrite (proj2 (Z.ltb_lt _ _) Hlt), Hb by lia. apply H2; lia.
  - exists 1%nat, a. intros n f Hn Hf. destruct n as [|n]; [lia|].
    cbn [while_]. rewrite (proj2 (Z.ltb_ge _ _) Hge). reflexivity.
Qed.
End Termination.

Lemma riff_next_forward (o s : Z) : 0 <= s -> o + 8 <= riff_next o s.
Proof. intros H. unfold riff_next. destruct (Z.rem s 2 =? 1); lia. Qed.

Lemma closedUnder_sound {P : Type} (eqb : P -> P -> bool) (succ : P -> list P) (start : P)
    (ps : list P) :
  (forall p q, eqb p q = true -> p = q) ->
  closedUnder eqb succ start ps = true -> forall p, reachable succ start p -> In p ps.
Proof.
  intros Heq Hc. unfold closedUnder in Hc. apply andb_true_iff in Hc as [Hs Hcl].
  rewrite forallb_forall in Hcl.
  assert (Hin : forall q, existsb (eqb q) ps = true -> In q ps).
  { intros q Hq. apply existsb_exists in Hq as (x & Hx & E).
    apply Heq in E. subst x. exact Hx. }
  intros p Hr. induction Hr as [|p q Hr IH Hq].
  - apply Hin. exact Hs.
  - specialize (Hcl p IH). rewrite forallb_forall in Hcl. apply Hin, Hcl, Hq.
Qed.

Lemma walk_state_eqb_eq {L : Type} (leqb : L -> L -> bool) :
  (forall a b, leqb a b = true -> a = b) ->
  forall p q, walk_state_eqb leqb p q = true -> p = q.
Proof.
  intros Hl [[l e] o] [[l' e'] o'] H. cbn in H.
  apply andb_true_iff in H as [H Ho]. apply andb_true_iff in H as [Hl' He].
  apply Hl in Hl'. apply Z.eqb_eq in He. apply Z.eqb_eq in Ho. subst. reflexivity.
Qed.

Lemma mp4_level_eqb_eq (a b : mp4_level) : mp4_level_eqb a b = true -> a = b.
Proof. destruct a, b; cbn; congruence. Qed.

Lemma avi_level_eqb_eq (a b : avi_level) : avi_level_eqb a b = true -> a = b.
Proof. destruct a, b; cbn; congruence. Qed.

Lemma sizes_check_sound {L : Type} (leqb : L -> L -> bool) (succ : L * Z * Z -> list (L * Z * Z))
    (start : L * Z * Z) (read : Z -> Z) (ps : list (L * Z * Z)) :
  (forall a b, leqb a b = true -> a = b) ->
  closedUnder (walk_state_eqb leqb) succ start ps = true ->
  forallb (fun p => let '(_, E, o) := p in implb (o <? E - 8) (0 <=? read o)) ps = true ->
  forall l E o, reachable succ start (l, E, o) -> o < E - 8 -> 0 <= read o.
Proof.
  intros Hl Hc Hn l E o Hr Ho.
  pose proof (closedUnder_sound _ _ _ _ (walk_state_eqb_eq _ Hl) Hc _ Hr) as Hi.
  rewrite forallb_forall in Hn. specialize (Hn _ Hi). cbn beta iota in Hn.
  rewrite (proj2 (Z.ltb_lt _ _) Ho) in Hn. cbn [implb] in Hn. apply Z.leb_le in Hn.
  exact Hn.
Qed.

Lemma mp4_sizes_check_sound (data : bytes) (ps : list (mp4_level * Z * Z)) :
  mp4_sizes_check data ps = true -> mp4_sizes_nonneg data.
Proof.
  unfold mp4_sizes_check. intros H. apply andb_true_iff in H as [Hc Hn].
  exact (sizes_check_sound mp4_level_eqb _ _ (readUint32BE data) ps mp4_level_eqb_eq Hc Hn).
Qed.

Lemma avi_sizes_check_sound (data : bytes) (ps : list (avi_level * Z * Z)) :
  avi_sizes_check data ps = true -> avi_sizes_nonneg data.
Proof.
  unfold avi_sizes_check. intros H. apply andb_true_iff in H as [Hc Hn].
  exact (sizes_check_sound avi_level_eqb _ _ (fun o => readUint32LE data (o + 4)) ps
           avi_level_eqb_eq Hc Hn).
Qed.

Section NonNegativeSizes.
Variable data : bytes.

Section BigEndian.
Hypothesis sizes_be : mp4_sizes_nonneg data.

Let R := reachable (mp4_succ data) (mp4_root data).

Lemma mp4_guard_pass (E o : Z) :
  (readUint32BE data o =? 0) || (E - o <? readUint32BE data o) = false ->
  readUint32BE data o <> 0 /\ readUint32BE data o <= E - o.
Proof.
  intros B. apply orb_false_iff in B as [B1 B2].
  apply Z.eqb_neq in B1. apply Z.ltb_ge in B2. split; assumption.
Qed.

Lemma mp4_succ_next (l : mp4_level) (E o : Z) :
  o < E - 8 ->
  (readUint32BE data o =? 0) || (E - o <? readUint32BE data o) = false ->
  mp4_continues l (readString data (o + 4) 4) = true ->
  In (l, E, o + readUint32BE data o) (mp4_succ data (l, E, o)).
Proof.
  intros Ho B Hc. unfold mp4_succ. rewrite (proj2 (Z.ltb_lt _ _) Ho), B, Hc.
  cbn [andb negb app]. left. reflexivity.
Qed.

Lemma mp4_succ_moov (E o : Z) :
  o < E - 8 ->
  (readUint32BE data o =? 0) || (E - o <? readUint32BE data o) = false ->
  readString data (o + 4) 4 = "moov"%string ->
  In (LMoov, o + 8 + Z.min (readUint32BE data o - 8) (len data - o - 8), o + 8)
     (mp4_succ data (LTop, E, o)).
Proof.
  intros Ho B Ht. unfold mp4_succ. rewrite (proj2 (Z.ltb_lt _ _) Ho), B, Ht.
  cbn. left. reflexivity.
Qed.

Lemma mp4_succ_trak (E o : Z) :
  o < E - 8 ->
  (readUint32BE data o =? 0) || (E - o <? readUint32BE data o) = false ->
  readString data (o + 4) 4 = "trak"%string ->
  In (LTrak, o + 8 + (readUint32BE data o - 8), o + 8) (mp4_succ data (LMoov, E, o)).
Proof.
  intros Ho B Ht. unfold mp4_succ. rewrite (proj2 (Z.ltb_lt _ _) Ho), B, Ht.
  cbn. right. left. reflexivity.
Qed.

Lemma parseTrackAtom_eventually (s size : Z) :
  R (LTrak, s + size, s) ->
  exists F r, forall f, (F <= f)%nat -> parseTrackAtom f data s size = Some r.
Proof.
  intros Hs. unfold parseTrackAtom.
  destruct (while_eventually (s + size - 8) (fun o => R (LTrak, s + size, o))
              (fun _ => track_body data (s + size)))
    with (o := s) (a := track_empty) as (F & r & H); [|exact Hs|].
  - intros o a Ho Hlt. pose proof (sizes_be _ _ _ Ho Hlt) as Hn.
    exists 0%nat. unfold track_body.
    destruct ((readUint32BE data o =? 0) || (s + size - o <? readUint32BE data o)) eqn:B.
    { eexists; split; [intros; reflexivity | exact I]. }
    destruct (mp4_guard_pass _ _ B) as [Hz Hle].
    destruct (String.eqb (readString data (o + 4) 4) "tkhd") eqn:T.
    { eexists; split; [intros; reflexivity | exact I]. }
    eexists; split; [intros; reflexivity|]. split; [lia|].
    apply (reach_step _ _ _ _ Ho). apply mp4_succ_next; [exact Hlt | exact B |].
    cbn [mp4_continues]. rewrite T. reflexivity.
  - exists F, r. intros f Hf. exact (H f f Hf Hf).
Qed.

Lemma parseMoovAtom_eventually (s size : Z) :
  R (LMoov, s + size, s) ->
  exists F r, forall f, (F <= f)%nat -> parseMoovAtom f data s size = Some r.
Proof.
  intros Hs. unfold parseMoovAtom.
  destruct (while_eventually (s + size - 8) (fun o => R (LMoov, s + size, o))
              (fun f => moov_body f data (s + size)))
    with (o := s) (a := moov_empty) as (F & r & H); [|exact Hs|].
  - intros o a Ho Hlt. pose proof (sizes_be _ _ _ Ho Hlt) as Hn. unfold moov_body.
    destruct ((readUint32BE data o =? 0) || (s + size - o <? readUint32BE data o)) eqn:B.
    { exists 0%nat. eexists; split; [intros; reflexivity | exact I]. }
    destruct (mp4_guard_pass _ _ B) as [Hz Hle].
    assert (Hnext : R (LMoov, s + size, o + readUint32BE data o)).
    { apply (reach_step _ _ _ _ Ho). apply mp4_succ_next; [exact Hlt | exact B | reflexivity]. }
    destruct (String.eqb (readString data (o + 4) 4) "trak") eqn:T.
    + apply String.eqb_eq in T.
      destruct (parseTrackAtom_eventually (o + 8) (readUint32BE data o - 8))
        as (F & t & Ht).
      { apply (reach_step _ _ _ _ Ho). exact (mp4_succ_trak _ _ Hlt B T). }
      exists F. eexists; split; [intros f Hf; rewrite (Ht f Hf); reflexivity|].
      split; [lia | exact Hnext].
    + exists 0%nat. eexists; split; [intros; reflexivity|]. split; [lia | exact Hnext].
  - exists F, r. intros f Hf. exact (H f f Hf Hf).
Qed.

Lemma mp4_walk_terminates :
  exists fuel st,
    while_ fuel (fun offset => offset <? len data - 8) (mp4_body fuel data) 0 mp4_start
      = Some st.
Proof.
  destruct (while_eventually (len data - 8) (fun o => R (LTop, len data, o))
              (fun f => mp4_body f data))
    with (o := 0) (a := mp4_start) as (F & r & H); [|apply reach_start|].
  - intros o a Ho Hlt. pose proof (sizes_be _ _ _ Ho Hlt) as Hn. unfold mp4_body.
    destruct ((readUint32BE data o =? 0) || (len data - o <? readUint32BE data o)) eqn:B.
    { exists 0%nat. eexists; split; [intros; reflexivity | exact I]. }
    destruct (mp4_guard_pass _ _ B) as [Hz Hle].
    destruct (String.eqb (readString data (o + 4) 4) "moov") eqn:T.
    + apply String.eqb_eq in T.
      destruct (parseMoovAtom_eventually (o + 8)
                  (Z.min (readUint32BE data o - 8) (len data - o - 8)))
        as (F & m & Hm).
      { apply (reach_step _ _ _ _ Ho). exact (mp4_succ_moov _ _ Hlt B T). }
      exists F. eexists; split; [intros f Hf; rewrite (Hm f Hf); reflexivity | exact I].
    + exists 0%nat. eexists; split; [intros; reflexivity|]. split; [lia|].
      apply (reach_step _ _ _ _ Ho). apply mp4_succ_next; [exact Hlt | exact B |].
      cbn [mp4_continues]. rewrite T. reflexivity.
  - exists F, r. exact (H F F (le_n F) (le_n F)).
Qed.
End BigEndian.

Section LittleEndian.
Hypothesis sizes_le : avi_sizes_nonneg data.

Let R := reachable (avi_succ data) (avi_root data).

Lemma avi_succ_next (l : avi_level) (E o : Z) :
  o < E - 8 -> In (l, E, riff_next o (readUint32LE data (o + 4))) (avi_succ data (l, E, o)).
Proof. intros Ho. unfold avi_succ. rewrite (proj2 (Z.ltb_lt _ _) Ho). left. reflexivity. Qed.

Lemma avi_succ_hdrl (E o : Z) :
  o < E - 8 ->
  readString data o 4 = "LIST"%string -> readString data (o + 8) 4 = "hdrl"%string ->
  In (AHdrl, o + 12 + (readUint32LE data (o + 4) - 4), o + 12) (avi_succ data (ATop, E, o)).
Proof.
  intros Ho Hl Hh. unfold avi_succ. rewrite (proj2 (Z.ltb_lt _ _) Ho), Hl, Hh.
  cbn. right. left. reflexivity.
Qed.

Lemma parseAVIHeaderList_eventually (s size : Z) :
  R (AHdrl, s + size, s) ->
  exists F r, forall f, (F <= f)%nat -> parseAVIHeaderList f data s size = Some r.
Proof.
  intros Hs. unfold parseAVIHeaderList.
  destruct (while_eventually (s + size - 8) (fun o => R (AHdrl, s + size, o))
              (fun _ => avih_body data))
    with (o := s) (a := avih_empty) as (F & r & H); [|exact Hs|].
  - intros o a Ho Hlt. pose proof (sizes_le _ _ _ Ho Hlt) as Hn.
    pose proof (riff_next_forward o (readUint32LE data (o + 4)) Hn).
    exists 0%nat. eexists; split; [intros; reflexivity|]. split; [lia|].
    exact (reach_step _ _ _ _ Ho (avi_succ_next _ _ _ Hlt)).
  - exists F, r. intros f Hf. exact (H f f Hf Hf).
Qed.

Lemma avi_walk_terminates :
  exists fuel st,
    while_ fuel (fun offset => offset <? len data - 8) (avi_body fuel data) 12 avi_start
      = Some st.
Proof.
  destruct (while_eventually (len data - 8) (fun o => R (ATop, len data, o))
              (fun f => avi_body f data))
    with (o := 12) (a := avi_start) as (F & r & H); [|apply reach_start|].
  - intros o a Ho Hlt. pose proof (sizes_le _ _ _ Ho Hlt) as Hn.
    pose proof (riff_next_forward o (readUint32LE data (o + 4)) Hn).
    pose proof (reach_step _ _ _ _ Ho (avi_succ_next _ _ _ Hlt)) as Hnext.
    unfold avi_body.
    destruct (String.eqb (readString data o 4) "LIST") eqn:Tl;
      [destruct (String.eqb (readString data (o + 8) 4) "hdrl") eqn:Th|].
    + apply String.eqb_eq in Tl, Th.
      destruct (parseAVIHeaderList_eventually (o + 12) (readUint32LE data (o + 4) - 4))
        as (F & h & Hh).
      { exact (reach_step _ _ _ _ Ho (avi_succ_hdrl _ _ Hlt Tl Th)). }
      exists F. eexists; split; [intros f Hf; rewrite (Hh f Hf); reflexivity|].
      split; [lia | exact Hnext].
    + exists 0%nat. eexists; split; [intros; reflexivity|]. split; [lia | exact Hnext].
    + exists 0%nat. eexists; split; [intros; reflexivity|]. split; [lia | exact Hnext].
  - exists F, r. exact (H F F (le_n F) (le_n F)).
Qed.
End LittleEndian.
End NonNegativeSizes.

(** A declared size with its top bit set reads as a negative number and
    can send the walk backwards: in [cycling_mp4] the box at 16 declares
    [0xFFFFFFF0] bytes, read as -16, so the top-level walk goes 0, 16, 0,
    16, ... and never ends, whatever the fuel. *)
Lemma cycling_mp4_diverges (fuel : nat) :
  tryParseMP4Chunk fuel cycling_mp4 0 32 = None /\
  parseMP4Metadata fuel cycling_mp4 = ([(0, 32)], None).
Proof.
  assert (H0 : mp4_body fuel cycling_mp4 0 mp4_start = Some (Continue 16 mp4_start))
    by (vm_compute; reflexivity).
  assert (H16 : mp4_body fuel cycling_mp4 16 mp4_start = Some (Continue 0 mp4_start))
    by (vm_compute; reflexivity).
  assert (Hloop : forall n,
    while_ n (fun offset => offset <? len cycling_mp4 - 8) (mp4_body fuel cycling_mp4)
      0 mp4_start = None /\
    while_ n (fun offset => offset <? len cycling_mp4 - 8) (mp4_body fuel cycling_mp4)
      16 mp4_start = None).
  { induction n as [|n [IH0 IH16]]; [split; reflexivity|].
    cbn [while_]. rewrite H0, H16. split; assumption. }
  assert (Ht : tryParseMP4Chunk fuel cycling_mp4 0 32 = None).
  { unfold tryParseMP4Chunk.
    replace (jsSlice cycling_mp4 0 (0 + 32)) with cycling_mp4 by (vm_compute; reflexivity).
    rewrite (proj1 (Hloop fuel)). reflexivity. }
  split; [exact Ht|].
  unfold parseMP4Metadata.
  replace (Z.min (512 * 1024) (len cycling_mp4)) with 32 by (vm_compute; reflexivity).
  rewrite Ht. reflexivity.
Qed.




Lemma mvhd_fields_witness :
  match moov_body 10 moov_v1 (len moov_v1) 8 moov_empty with
  | Some (Continue next r) => next = 52 /\ mv_timescale r = Some 600 /\ mv_duration r = Some 3000
  | _ => False
  end.
Proof.
  rewrite (proj1 (mvhd_fields 10 moov_v1 (len moov_v1) 8 moov_empty
    ltac:(vm_compute; discriminate) ltac:(vm_compute; discriminate)
    ltac:(vm_compute; reflexivity))).
  vm_compute. repeat split.
Defined.

Lemma tkhd_dimensions_witness :
  track_body (mk (tkhd_v0 1280 720)) 80 0 track_empty =
    Some (Break {| tk_width := Some 1280; tk_height := Some 720 |}).
Proof.
  rewrite (proj1 (tkhd_dimensions (mk (tkhd_v0 1280 720)) 80 0 track_empty
    ltac:(vm_compute; discriminate) ltac:(vm_compute; discriminate)
    ltac:(vm_compute; reflexivity))).
  vm_compute. reflexivity.
Defined.

Lemma later_trak_replaces_witness :
  exists r',
    moov_body 10 moov_two_traks 216 128 moov_empty = Some (Continue 216 r') /\
    mv_width r' = Some 640 /\ mv_height r' = Some 480.
Proof.
  destruct (later_trak_replaces 10 moov_two_traks 216 128 moov_empty
    {| tk_width := Some 640; tk_height := Some 480 |}
    ltac:(vm_compute; discriminate) ltac:(vm_compute; discriminate)
    ltac:(vm_compute; reflexivity) ltac:(vm_compute; reflexivity)
    ltac:(reflexivity) ltac:(reflexivity)) as ((r' & E & Hw & Hh & _ & _) & _ & _).
  exists r'. split; [|split; assumption].
  rewrite E. reflexivity.
Defined.

Lemma binary_tier_results_witness :
  (exists r, getVideoMetadataFromBinary 10 mp4_file = Some (Ok r) /\
     0 < width r /\ 0 < height r /\ fileSize r = len mp4_file)
  /\ getVideoMetadataFromBinary 2 short_file = Some Throw.
Proof.
  split.
  - destruct (getVideoMetadataFromBinary 10 mp4_file) as [[r|]|] eqn:E;
      [|vm_compute in E; discriminate E..].
    exists r. split; [reflexivity|].
    destruct (proj1 (binary_tier_results 0) 10%nat mp4_file r E) as (_ & Hw & Hh & _ & Hs).
    auto.
  - apply (proj2 (binary_tier_results 0)). vm_compute. lia.
Defined.

Lemma aspect_label_within_tolerance_witness :
  getAspectRatioDisplay (4 / 3)%float = "4:3"%string /\
  getAspectRatioDisplay 2%float = ""%string.
Proof.
  destruct aspect_label_within_tolerance as (Hfirst & Hout & _). split.
  - apply (Hfirst _ [((16 / 9)%float, "16:9"%string)] (4 / 3)%float "4:3"%string
             (skipn 2 commonRatios)); [reflexivity | vm_compute; reflexivity |].
    intros r' l' [H|[]]. injection H as <- <-. vm_compute. reflexivity.
  - apply Hout. intros r l H. simpl in H.
    repeat destruct H as [H|H]; try injection H as <- <-; try contradiction H;
      vm_compute; reflexivity.
Defined.

(** * Properties of the rest of video-utils.ts *)

(** ** formatDuration *)

Lemma splitColon_noColon (s : string) : noColon s = true -> splitColon s = [s].
Proof.
  induction s as [|c r IH]; [reflexivity|]. cbn. intros H.
  apply andb_true_iff in H as [H1 H2]. apply negb_true_iff in H1. rewrite H1, IH by exact H2.
  reflexivity.
Qed.

Lemma splitColon_app (a b : string) :
  noColon a = true -> splitColon (a ++ String ":" b) = a :: splitColon b.
Proof.
  induction a as [|c r IH]; [reflexivity|]. cbn. intros H.
  apply andb_true_iff in H as [H1 H2]. apply negb_true_iff in H1. rewrite H1, IH by exact H2.
  reflexivity.
Qed.

Lemma noColon_uint (d : Decimal.uint) : noColon (NilEmpty.string_of_uint d) = true.
Proof. induction d; cbn; try rewrite IHd; reflexivity. Qed.

Lemma noColon_decimal (n : Z) : noColon (padStart2 (decimalString n)) = true.
Proof.
  unfold padStart2, decimalString, NilZero.string_of_uint.
  destruct (N.to_uint (Z.to_N n)) eqn:E; try reflexivity;
  match goal with |- context [NilEmpty.string_of_uint ?d] =>
    destruct (String.length (NilEmpty.string_of_uint d)) as [|[|k]];
    cbn [noColon negb Ascii.eqb andb]; try reflexivity;
    try (cbn; apply noColon_uint); apply noColon_uint end.
Qed.

Lemma parseNat_pad (s : string) (d : Decimal.uint) :
  NilZero.uint_of_string s = Some d -> parseNat (padStart2 s) = Some (Z.of_N (N.of_uint d)).
Proof.
  intros H. destruct s as [|a s']; [discriminate H|].
  unfold padStart2. cbn [String.length]. destruct (String.length s') as [|k].
  - unfold parseNat. cbn [NilZero.uint_of_string].
    change (NilEmpty.uint_of_string (String "0" (String a s')))
      with (uint_of_char "0" (NilEmpty.uint_of_string (String a s'))).
    cbn [NilZero.uint_of_string] in H. rewrite H. reflexivity.
  - unfold parseNat. rewrite H. reflexivity.
Qed.

Lemma parseNat_decimal (n : Z) : 0 <= n -> parseNat (padStart2 (decimalString n)) = Some n.
Proof.
  intros Hn. unfold decimalString.
  destruct (NilZero.usu_gen (N.to_uint (Z.to_N n))) as [H|H];
    rewrite (parseNat_pad _ _ H); f_equal.
  - rewrite DecimalN.Unsigned.of_to. apply Z2N.id. exact Hn.
  - assert (Hz : N.of_uint Decimal.zero = N.of_uint (N.to_uint (Z.to_N n))).
    { destruct (N.to_uint (Z.to_N n)) eqn:E; [reflexivity|..];
        rewrite NilZero.usu in H by discriminate; injection H as ->; reflexivity. }
    rewrite Hz, DecimalN.Unsigned.of_to. apply Z2N.id. exact Hn.
Qed.

Lemma small_fields : forallb (fun k => let s := padStart2 (decimalString (Z.of_nat k)) in
    Nat.eqb (String.length s) 2) (seq 0 60) = true.
Proof. vm_compute. reflexivity. Qed.

Lemma clockField_decimal (v : Z) : 0 <= v < 60 -> clockField (padStart2 (intToString v)).
Proof.
  intros Hv. unfold intToString. rewrite (proj2 (Z.ltb_lt v _)) by lia.
  split; [|exists v; split; [apply parseNat_decimal; lia | exact Hv]].
  pose proof small_fields as H. rewrite forallb_forall in H.
  specialize (H (Z.to_nat v)). rewrite Z2Nat.id in H by lia.
  apply Nat.eqb_eq, H, in_seq. lia.
Qed.

Lemma Qfloor_unique (x : Q) (n : Z) :
  (inject_Z n <= x)%Q -> (x < inject_Z (n + 1))%Q -> Qfloor x = n.
Proof.
  intros H1 H2. pose proof (Qfloor_le x) as F1. pose proof (Qlt_floor x) as F2.
  assert (n < Qfloor x + 1).
  { rewrite Zlt_Qlt. exact (Qle_lt_trans _ _ _ H1 F2). }
  assert (Qfloor x < n + 1).
  { rewrite Zlt_Qlt. exact (Qle_lt_trans _ _ _ F1 H2). }
  lia.
Qed.

Lemma Qfloor_div (q : Q) (k : Z) : 0 < k -> Qfloor (q / inject_Z k) = Qfloor q / k.
Proof.
  intros Hk. pose proof (Qfloor_le q) as F1. pose proof (Qlt_floor q) as F2.
  set (f := Qfloor q) in *.
  assert (Kq : (0 < inject_Z k)%Q) by (pose proof Hk as HkQ; rewrite Zlt_Qlt in HkQ; exact HkQ).
  apply Qfloor_unique.
  - apply Qle_shift_div_l; [exact Kq|]. rewrite <- inject_Z_mult.
    apply (Qle_trans _ (inject_Z f)); [|exact F1]. rewrite <- Zle_Qle.
    rewrite Z.mul_comm. apply Z.mul_div_le. exact Hk.
  - apply Qlt_shift_div_r; [exact Kq|]. rewrite <- inject_Z_mult.
    apply (Qlt_le_trans _ _ _ F2). rewrite <- Zle_Qle.
    pose proof (Z.mul_succ_div_gt f k Hk). lia.
Qed.

Lemma Qfloor_sub_int (q : Q) (z : Z) : Qfloor (q - inject_Z z) = Qfloor q - z.
Proof.
  pose proof (Qfloor_le q). pose proof (Qlt_floor q).
  replace (Qfloor q - z) with (Qfloor q + - z) by ring.
  apply Qfloor_unique; rewrite ?inject_Z_plus, ?inject_Z_opp in *; lra.
Qed.

Lemma jsQmod_nonneg (q : Q) (k : Z) : (0 <= q)%Q -> 0 < k ->
  Qfloor (jsQmod q (inject_Z k)) = Qfloor q mod k.
Proof.
  intros Hq Hk. unfold jsQmod, Qtrunc.
  assert (Kq : (0 < inject_Z k)%Q) by (pose proof Hk as HkQ; rewrite Zlt_Qlt in HkQ; exact HkQ).
  assert (Hd : (0 <= q / inject_Z k)%Q) by (apply Qle_shift_div_l; [exact Kq | lra]).
  rewrite (proj2 (Qle_bool_iff _ _) Hd), Qfloor_div by exact Hk.
  rewrite <- inject_Z_mult, Qfloor_sub_int. rewrite Z.mod_eq by lia. reflexivity.
Qed.

(** The three fields of [formatDuration] for [s >= 0]. *)
Lemma duration_fields (s : Q) : (0 <= s)%Q ->
  Qfloor (s / 3600) = Qfloor s / 3600 /\
  Qfloor (jsQmod s 3600 / 60) = Qfloor s mod 3600 / 60 /\
  Qfloor (jsQmod s 60) = Qfloor s mod 60.
Proof.
  intros Hs. split; [|split].
  - apply (Qfloor_div s 3600). lia.
  - rewrite (Qfloor_div _ 60) by lia. f_equal. apply (jsQmod_nonneg s 3600); [exact Hs | lia].
  - apply (jsQmod_nonneg s 60); [exact Hs | lia].
Qed.

Lemma intToString_small (v : Z) : v < 10 ^ 21 -> intToString v = decimalString v.
Proof. intros H. unfold intToString. rewrite (proj2 (Z.ltb_lt _ _) H). reflexivity. Qed.

Lemma clock_arith (f : Z) :
  0 <= f -> f = f / 3600 * 3600 + f mod 3600 / 60 * 60 + f mod 60.
Proof.
  intros Hf. pose proof (Z.div_mod f 3600 ltac:(lia)).
  pose proof (Z.div_mod (f mod 3600) 60 ltac:(lia)).
  rewrite <- (Z.mod_mod_divide f 3600 60) by (exists 60; reflexivity). lia.
Qed.

Lemma Qfloor_bounds (q : Q) (b : Z) :
  (0 <= q)%Q -> (q < inject_Z b)%Q -> 0 <= Qfloor q < b.
Proof.
  intros H0 H1. split.
  - change 0 with (Qfloor 0). apply Qfloor_resp_le. exact H0.
  - rewrite Zlt_Qlt. exact (Qle_lt_trans _ _ _ (Qfloor_le q) H1).
Qed.

Lemma Qfloor_3600 (q : Q) : (0 <= q)%Q -> (Qfloor q / 3600 = 0 <-> Qltb q 3600 = true).
Proof.
  intros Hq. rewrite Qltb_iff. pose proof (Qfloor_le q) as F1. pose proof (Qlt_floor q) as F2.
  pose proof (Qfloor_bounds q (Qfloor q + 1) Hq F2). split.
  - intros Hd. assert (Qfloor q < 3600) by (apply Z.div_small_iff in Hd; lia).
    apply (Qlt_le_trans _ _ _ F2). change 3600%Q with (inject_Z 3600).
    rewrite <- Zle_Qle. lia.
  - intros Hd. apply Z.div_small. split; [lia|].
    rewrite Zlt_Qlt. exact (Qle_lt_trans _ _ _ F1 Hd).
Qed.

(** The exact-arithmetic model of [formatDuration] on a non-negative
    rational below 3600 * 10^21 (so that the hour count prints without an
    exponent). *)
Lemma formatDuration_clock_Q (q : Q) :
  (0 <= q)%Q -> (q < inject_Z (3600 * 10 ^ 21))%Q ->
  parseClock (formatDuration (Fin q)) = Some (Qfloor q) /\
  exists head mm ss,
    splitColon (formatDuration (Fin q)) = head ++ [mm; ss] /\
    clockField mm /\ clockField ss /\
    List.length head = (if Qltb q 3600 then 0 else 1)%nat.
Proof.
  intros H0 H1.
  destruct (Qfloor_bounds q _ H0 H1) as [F0 F1].
  pose proof (clock_arith _ F0) as Ef.
  destruct (duration_fields q H0) as (E1 & E2 & E3).
  set (f := Qfloor q) in *.
  assert (Hm : 0 <= f mod 3600 / 60 < 60).
  { pose proof (Z.mod_pos_bound f 3600 ltac:(lia)). split; [apply Z.div_pos|apply Z.div_lt_upper_bound]; lia. }
  assert (Hs : 0 <= f mod 60 < 60) by (apply Z.mod_pos_bound; lia).
  assert (Hh : 0 <= f / 3600 < 10 ^ 21).
  { split; [apply Z.div_pos; lia | apply Z.div_lt_upper_bound; lia]. }
  assert (Nq : Qltb q 0 = false).
  { destruct (Qltb q 0) eqn:E; [apply Qltb_iff in E; lra | reflexivity]. }
  unfold formatDuration. cbn [isNaN jsLt orb]. rewrite Nq. cbn [orb].
  rewrite E1, E2, E3.
  rewrite (intToString_small (f mod 3600 / 60)) by lia.
  rewrite (intToString_small (f mod 60)) by lia.
  pose proof (clockField_decimal (f mod 3600 / 60) Hm) as Cm.
  pose proof (clockField_decimal (f mod 60) Hs) as Cs.
  rewrite (intToString_small (f mod 3600 / 60)) in Cm by lia.
  rewrite (intToString_small (f mod 60)) in Cs by lia.
  pose proof (Qfloor_3600 q H0) as H36. fold f in H36.
  unfold parseClock.
  destruct (Z.ltb_spec 0 (f / 3600)) as [Hp|Hp].
  - rewrite (intToString_small (f / 3600)) by lia. cbn [append].
    rewrite splitColon_app, splitColon_app, splitColon_noColon by apply noColon_decimal.
    split.
    + cbn [map].
      rewrite !parseNat_decimal by lia. f_equal. lia.
    + exists [padStart2 (decimalString (f / 3600))]. do 2 eexists.
      split; [reflexivity|]. split; [exact Cm|]. split; [exact Cs|].
      destruct (Qltb q 3600); [|reflexivity]. assert (f / 3600 = 0) by (apply H36; reflexivity). lia.
  - cbn [append]. rewrite splitColon_app, splitColon_noColon by apply noColon_decimal.
    split.
    + cbn [map].
      rewrite !parseNat_decimal by lia. f_equal. lia.
    + exists []. do 2 eexists.
      split; [reflexivity|]. split; [exact Cm|]. split; [exact Cs|].
      rewrite (proj1 H36) by lia. reflexivity.
Qed.

Lemma Qltb_inject_Z (n m : Z) : Qltb (inject_Z n) (inject_Z m) = (n <? m).
Proof.
  destruct (Z.ltb_spec n m) as [H|H].
  - apply Qltb_iff. rewrite <- Zlt_Qlt. exact H.
  - destruct (Qltb (inject_Z n) (inject_Z m)) eqn:E; [|reflexivity].
    apply Qltb_iff in E. rewrite <- Zlt_Qlt in E. lia.
Qed.

(** [formatDuration] on a whole number [n] of seconds, [0 <= n < 2^53],
    gives a clock text whose fields read back as [n]: [MM:SS] below one
    hour, [HH:MM:SS] from one hour on, minutes and seconds two digits
    below 60. In this range the double operations of the source compute
    what the model computes: [n % 3600] and [n % 60] are exact, [n / 3600]
    lies at least [1/3600] below the next integer while doubles below
    [2^42] are spaced at most [2^-11] apart, so [Math.floor] of the
    rounded quotient is [n / 3600] rounded down (likewise for [/ 60]), and
    integers below [2^53] print as their digits. *)
Theorem formatDuration_clock (n : Z) :
  0 <= n < 2 ^ 53 ->
  parseClock (formatDuration (Fin (inject_Z n))) = Some n /\
  exists head mm ss,
    splitColon (formatDuration (Fin (inject_Z n))) = head ++ [mm; ss] /\
    clockField mm /\ clockField ss /\
    List.length head = (if n <? 3600 then 0%nat else 1%nat).
Proof.
  intros Hn.
  assert (H0 : (0 <= inject_Z n)%Q) by (change 0%Q with (inject_Z 0); rewrite <- Zle_Qle; lia).
  assert (H1 : (inject_Z n < inject_Z (3600 * 10 ^ 21))%Q) by (rewrite <- Zlt_Qlt; lia).
  destruct (formatDuration_clock_Q (inject_Z n) H0 H1) as [Hp Hf].
  rewrite Qfloor_Z in Hp. split; [exact Hp|].
  change 3600%Q with (inject_Z 3600) in Hf. rewrite Qltb_inject_Z in Hf. exact Hf.
Qed.


(** ** formatFileSize *)

Lemma pow1024 (k : Z) : 0 <= k -> 1024 ^ k = 2 ^ (10 * k).
Proof. intros Hk. rewrite Z.pow_mul_r by lia. reflexivity. Qed.

Lemma unit_exponent (n : Z) : 1 <= n ->
  0 <= Z.log2 n / 10 /\ 1024 ^ (Z.log2 n / 10) <= n < 1024 ^ (Z.log2 n / 10 + 1).
Proof.
  intros Hn. remember (Z.log2 n / 10) as k eqn:Ek. pose proof (Z.log2_spec n ltac:(lia)) as [L1 L2].
  pose proof (Z.log2_nonneg n).
  assert (Hk : 0 <= k) by (subst k; apply Z.div_pos; lia).
  split; [exact Hk|]. rewrite !pow1024 by lia. split.
  - apply (Z.le_trans _ (2 ^ Z.log2 n)); [apply Z.pow_le_mono_r; [lia|] | exact L1].
    subst k. Z.div_mod_to_equations. lia.
  - apply (Z.lt_le_trans _ _ _ L2). apply Z.pow_le_mono_r; [lia|].
    subst k. Z.div_mod_to_equations. lia.
Qed.

Lemma ilog2Q_int (n k : Z) : 0 <= k -> 1024 ^ k <= n < 1024 ^ (k + 1) ->
  ilog2Q (inject_Z n) / 10 = k.
Proof.
  intros Hk [H1 H2]. rewrite pow1024 in H1, H2 by lia.
  assert (Hn : 0 < n) by (pose proof (Z.pow_pos_nonneg 2 (10 * k)); lia).
  unfold ilog2Q. cbn [Qnum Qden inject_Z]. change (Z.log2 1) with 0. rewrite Z.sub_0_r.
  pose proof (Z.log2_spec n Hn) as [L1 L2].
  assert (Hb : Qle_bool (Qpower 2 (Z.log2 n)) (inject_Z n) = true).
  { apply Qle_bool_iff. change 2%Q with (inject_Z 2).
    rewrite <- Zpower_Qpower by apply Z.log2_nonneg. rewrite <- Zle_Qle. exact L1. }
  rewrite Hb.
  assert (10 * k <= Z.log2 n) by (apply Z.log2_le_pow2; lia).
  assert (Z.log2 n < 10 * (k + 1)) by (apply Z.log2_lt_pow2; [lia | exact H2]).
  Z.div_mod_to_equations. lia.
Qed.

(** An integer byte count [n >= 1], with [k] its power-of-1024 exponent. *)
Lemma formatFileSize_int (n k : Z) : 0 <= k -> 1024 ^ k <= n < 1024 ^ (k + 1) ->
  exists m, formatFileSize (Fin (inject_Z n)) = (hundredthsString m ++ " " ++ unitName k)%string /\
    100 <= m <= 102400 /\
    (Qabs (inject_Z m / 100 - inject_Z n / inject_Z (1024 ^ k)) <= 1 # 200)%Q.
Proof.
  intros Hk Hr. pose proof (Z.pow_pos_nonneg 1024 k ltac:(lia) Hk) as HP.
  assert (Hn : 0 < n) by lia.
  unfold formatFileSize.
  assert (E0 : Qeq_bool (inject_Z n) 0 = false).
  { apply not_true_is_false. intros E. apply Qeq_bool_eq in E.
    unfold Qeq in E. cbn in E. lia. }
  assert (E1 : Qltb 0 (inject_Z n) = true).
  { apply Qltb_iff. change 0%Q with (inject_Z 0). rewrite <- Zlt_Qlt. exact Hn. }
  rewrite E0, E1, (ilog2Q_int n k Hk Hr). unfold toFixed2String.
  set (P := inject_Z (1024 ^ k)).
  assert (EP : (Qpower 1024 k == P)%Q).
  { unfold P. change 1024%Q with (inject_Z 1024). rewrite Zpower_Qpower by exact Hk. reflexivity. }
  exists (Qfloor (inject_Z n / P * 100 + (1 # 2))%Q). split.
  { f_equal. f_equal. apply Qfloor_comp. rewrite EP. reflexivity. }
  set (x := (inject_Z n / P)%Q).
  assert (PP : (0 < P)%Q) by (unfold P; change 0%Q with (inject_Z 0); rewrite <- Zlt_Qlt; exact HP).
  assert (X1 : (1 <= x)%Q).
  { unfold x. apply Qle_shift_div_l; [exact PP|]. rewrite Qmult_1_l. unfold P.
    rewrite <- Zle_Qle. lia. }
  assert (X2 : (x < 1024)%Q).
  { unfold x. apply Qlt_shift_div_r; [exact PP|]. unfold P. change 1024%Q with (inject_Z 1024).
    rewrite <- inject_Z_mult, <- Zlt_Qlt. rewrite Z.pow_add_r in Hr by lia. lia. }
  pose proof (Qfloor_le (x * 100 + (1 # 2))) as F1.
  pose proof (Qlt_floor (x * 100 + (1 # 2))) as F2.
  set (m := Qfloor (x * 100 + (1 # 2))) in *.
  rewrite inject_Z_plus in F2. change (inject_Z 1) with 1%Q in F2.
  split; [split|].
  - assert (H100 : (99 < inject_Z m)%Q) by lra.
    change 99%Q with (inject_Z 99) in H100. rewrite <- Zlt_Qlt in H100. lia.
  - assert (H100 : (inject_Z m < 102401)%Q) by lra.
    change 102401%Q with (inject_Z 102401) in H100. rewrite <- Zlt_Qlt in H100. lia.
  - fold x. apply Qabs_Qle_condition.
    setoid_replace (inject_Z m / 100)%Q with (inject_Z m * (1 # 100))%Q by reflexivity.
    split; lra.
Qed.

Lemma formatFileSize_nonpos (q : Q) : (q < 0)%Q -> formatFileSize (Fin q) = "NaN undefined"%string.
Proof.
  intros Hq. cbn [formatFileSize].
  destruct (Qeq_bool q 0) eqn:E0; [apply Qeq_bool_eq in E0; rewrite E0 in Hq; discriminate Hq|].
  destruct (Qltb 0 q) eqn:E1; [apply Qltb_iff in E1; lra|reflexivity].
Qed.

(** [formatFileSize] on a whole byte count [n] from 1 up to 1 TB prints the count
    divided by [1024^k], [k = floor(log2 n / 10)], rounded to hundredths
    (a value between 1 and 1024, at most 1/200 away from the exact quotient),
    followed by the unit [sizes[k]]. *)
Theorem formatFileSize_integer (n : Z) : 1 <= n < 1024 ^ 4 ->
  exists m,
    formatFileSize (Fin (inject_Z n)) = (hundredthsString m ++ " " ++ unitName (Z.log2 n / 10))%string /\
    100 <= m <= 102400 /\
    (Qabs (inject_Z m / 100 - inject_Z n / inject_Z (1024 ^ (Z.log2 n / 10))) <= 1 # 200)%Q.
Proof.
  intros [Hn _]. destruct (unit_exponent n Hn) as [Hk Hr]. exact (formatFileSize_int n _ Hk Hr).
Qed.

(** Below 1024 bytes [formatFileSize] prints the count itself with [" B"];
    zero is the special case ["0 B"]. *)
Theorem formatFileSize_bytes (n : Z) : 0 <= n < 1024 ->
  formatFileSize (Fin (inject_Z n)) = (if Z.eqb n 0 then "0 B" else intToString n ++ " B")%string.
Proof.
  intros Hn. destruct (Z.eqb_spec n 0) as [->|Hn0]; [reflexivity|].
  assert (Hr : 1024 ^ 0 <= n < 1024 ^ (0 + 1)) by (cbn; lia).
  unfold formatFileSize.
  assert (E0 : Qeq_bool (inject_Z n) 0 = false).
  { apply not_true_is_false. intros E. apply Qeq_bool_eq in E.
    unfold Qeq in E. cbn in E. lia. }
  assert (E1 : Qltb 0 (inject_Z n) = true).
  { apply Qltb_iff. change 0%Q with (inject_Z 0). rewrite <- Zlt_Qlt. lia. }
  rewrite E0, E1, (ilog2Q_int n 0 ltac:(lia) Hr). unfold toFixed2String.
  assert (Ef : Qfloor (inject_Z n / Qpower 1024 0 * 100 + (1 # 2)) = n * 100).
  { cbn [Qpower]. setoid_replace (inject_Z n / 1 * 100 + (1 # 2))%Q with (inject_Z (n * 100) + (1 # 2))%Q
      by (rewrite inject_Z_mult; field).
    apply Qfloor_unique; rewrite ?inject_Z_plus; change (inject_Z 1) with 1%Q; lra. }
  rewrite Ef. unfold hundredthsString. rewrite Z.mod_mul, Z.div_mul by lia. reflexivity.
Qed.

(** Outside its range [formatFileSize] prints garbage instead of failing:
    negative sizes, [NaN] and the infinities give ["NaN undefined"], and
    from 1024^4 bytes (1 TB) on the unit is ["undefined"]. *)
Theorem formatFileSize_invalid :
  (forall q, (q < 0)%Q -> formatFileSize (Fin q) = "NaN undefined"%string) /\
  formatFileSize NaN = "NaN undefined"%string /\
  formatFileSize PosInf = "NaN undefined"%string /\
  formatFileSize NegInf = "NaN undefined"%string /\
  (forall n, 1024 ^ 4 <= n -> exists s, formatFileSize (Fin (inject_Z n)) = (s ++ " undefined")%string).
Proof.
  split; [exact formatFileSize_nonpos|]. split; [reflexivity|]. split; [reflexivity|].
  split; [reflexivity|]. intros n Hn.
  assert (H1 : 1 <= n) by (cbn in Hn; lia).
  destruct (unit_exponent n H1) as [Hk Hr].
  destruct (formatFileSize_int n _ Hk Hr) as [m [E _]]. rewrite E.
  exists (hundredthsString m). f_equal.
  assert (4 <= Z.log2 n / 10).
  { destruct (Z_lt_le_dec (Z.log2 n / 10) 4) as [Hl|]; [|lia].
    assert (1024 ^ (Z.log2 n / 10 + 1) <= 1024 ^ 4) by (apply Z.pow_le_mono_r; lia). lia. }
  unfold unitName. rewrite (proj2 (Z.leb_le 0 _)) by lia.
  rewrite (proj2 (nth_error_None sizes _)); [reflexivity|]. cbn. lia.
Qed.

Lemma formatFileSize_integer_witness :
  1 <= 1536 < 1024 ^ 4 /\ exists m,
    formatFileSize (Fin (inject_Z 1536)) = (hundredthsString m ++ " " ++ unitName (Z.log2 1536 / 10))%string /\
    100 <= m <= 102400 /\
    (Qabs (inject_Z m / 100 - inject_Z 1536 / inject_Z (1024 ^ (Z.log2 1536 / 10))) <= 1 # 200)%Q.
Proof. split; [lia | apply (formatFileSize_integer 1536); lia]. Defined.

Lemma formatFileSize_bytes_witness :
  0 <= 500 < 1024 /\ formatFileSize (Fin (inject_Z 500)) = (if Z.eqb 500 0 then "0 B" else intToString 500 ++ " B")%string.
Proof. split; [lia | apply (formatFileSize_bytes 500); lia]. Defined.

Lemma formatDuration_clock_witness :
  0 <= 3725 < 2 ^ 53 /\
  parseClock (formatDuration (Fin (inject_Z 3725))) = Some 3725 /\
  exists head mm ss,
    splitColon (formatDuration (Fin (inject_Z 3725))) = head ++ [mm; ss] /\
    clockField mm /\ clockField ss /\
    List.length head = (if 3725 <? 3600 then 0%nat else 1%nat).
Proof. split; [lia | apply (formatDuration_clock 3725); lia]. Defined.


(** ** formatEstimatedGifSize and estimateGifSize *)

Lemma Qltb_MiB (q c : Q) : Qltb (q / (1024 * 1024)) c = Qltb q (c * 1048576).
Proof.
  change (q / (1024 * 1024))%Q with (q * (1 # 1048576))%Q.
  apply eq_true_iff_eq. rewrite !Qltb_iff. split; intros; lra.
Qed.

Lemma formatEstimatedGifSize_level (x : num) :
  warningLevel (formatEstimatedGifSize x) =
    (if isNaN x then Danger
     else if jsLt x (Fin 8388608) then Safe
     else if jsLt x (Fin 12582912) then Warning
     else Danger).
Proof.
  destruct x as [q| | |]; try reflexivity.
  unfold formatEstimatedGifSize. cbn [jsDiv isNaN jsLt].
  change (Qeq_bool (1024 * 1024) 0) with false. cbv iota.
  cbn [jsLt]. rewrite !Qltb_MiB.
  change (8 * 1048576)%Q with 8388608%Q. change (12 * 1048576)%Q with 12582912%Q.
  destruct (Qltb q 8388608); [reflexivity|]. destruct (Qltb q 12582912); reflexivity.
Qed.

Lemma mathRound_mono (x y : Q) : (x <= y)%Q -> mathRound x <= mathRound y.
Proof. intros H. unfold mathRound. apply Qfloor_resp_le. lra. Qed.

Lemma mathRound_nonneg (x : Q) : (0 <= x)%Q -> 0 <= mathRound x.
Proof. intros H. change 0 with (mathRound 0). apply mathRound_mono. exact H. Qed.

Lemma mathRound_int (z : Z) : mathRound (inject_Z z) = z.
Proof.
  unfold mathRound. apply Qfloor_unique; rewrite ?inject_Z_plus; change (inject_Z 1) with 1%Q; lra.
Qed.

Lemma level_mono (a b : Q) : (a <= b)%Q ->
  levelRank (warningLevel (formatEstimatedGifSize (Fin a)))
  <= levelRank (warningLevel (formatEstimatedGifSize (Fin b))).
Proof.
  intros H. rewrite !formatEstimatedGifSize_level. cbn [isNaN jsLt].
  destruct (Qltb a 8388608) eqn:A1, (Qltb b 8388608) eqn:B1; cbn; try lia;
    rewrite ?Qltb_iff in *; try (apply not_true_iff_false in A1; rewrite Qltb_iff in A1);
    try (apply not_true_iff_false in B1; rewrite Qltb_iff in B1); try lra;
  destruct (Qltb a 12582912) eqn:A2, (Qltb b 12582912) eqn:B2; cbn; try lia;
    rewrite ?Qltb_iff in *; try (apply not_true_iff_false in A2; rewrite Qltb_iff in A2);
    try (apply not_true_iff_false in B2; rewrite Qltb_iff in B2); lra.
Qed.

(** The estimate for finite inputs, a known colour count [c] with
    [Math.log2(c) = b], and no [settings.duration]. *)
Lemma estimate_formula (md : JsVideoMetadata) (s : GifSettings) (w ar d fr : Q) (c b : Z) :
  g_size s = Fin w -> m_aspectRatio md = Fin ar -> ~ (ar == 0)%Q ->
  g_duration s = None -> m_duration md = Fin d -> g_frameRate s = Fin fr ->
  colorCounts (g_quality s) = VNum (Fin (inject_Z c)) -> c <> 0 ->
  mathLog2 (Fin (inject_Z c)) = Some (Fin (inject_Z b)) ->
  estimateGifSize md s =
    Some (Fin (inject_Z (mathRound
      ((w * inject_Z (mathRound (w / ar)) * (inject_Z b / 8) * inject_Z (mathRound (d * fr))
        + (1024 + inject_Z c * 3)) / 2)))).
Proof.
  intros Hw Har Har0 Hsd Hd Hfr Hc Hc0 Hb. unfold estimateGifSize, gifSizeFromCounts.
  rewrite Hw, Har, Hsd, Hd, Hfr, Hc.
  assert (Ec : Qeq_bool (inject_Z c) 0 = false).
  { apply not_true_iff_false. intros E. apply Qeq_bool_eq in E. unfold Qeq in E. cbn in E. lia. }
  assert (Ea : Qeq_bool ar 0 = false).
  { apply not_true_iff_false. intros E. apply Qeq_bool_eq in E. contradiction. }
  cbn [jsTruthy numTruthy]. rewrite Ec. cbn [negb toNumber]. rewrite Hb.
  cbn [jsDiv jsRound jsMul jsAdd]. rewrite Ea. reflexivity.
Qed.

Lemma mathLog2_64 : mathLog2 (Fin (inject_Z 64)) = Some (Fin (inject_Z 6)).
Proof. reflexivity. Qed.
Lemma mathLog2_128 : mathLog2 (Fin (inject_Z 128)) = Some (Fin (inject_Z 7)).
Proof. reflexivity. Qed.
Lemma mathLog2_256 : mathLog2 (Fin (inject_Z 256)) = Some (Fin (inject_Z 8)).
Proof. reflexivity. Qed.

Lemma estimate_value_mono (w H T1 T2 : Q) (b1 b2 c1 c2 : Z) :
  (0 <= w)%Q -> (0 <= H)%Q -> (0 <= T1)%Q -> (T1 <= T2)%Q -> 0 <= b1 <= b2 -> c1 <= c2 ->
  mathRound ((w * H * (inject_Z b1 / 8) * T1 + (1024 + inject_Z c1 * 3)) / 2)
  <= mathRound ((w * H * (inject_Z b2 / 8) * T2 + (1024 + inject_Z c2 * 3)) / 2).
Proof.
  intros Hw HH HT1 HT Hb Hc. apply mathRound_mono.
  assert (B0 : (0 <= inject_Z b1)%Q) by (change 0%Q with (inject_Z 0); rewrite <- Zle_Qle; lia).
  assert (B1 : (inject_Z b1 <= inject_Z b2)%Q) by (rewrite <- Zle_Qle; lia).
  assert (C1 : (inject_Z c1 <= inject_Z c2)%Q) by (rewrite <- Zle_Qle; lia).
  assert (U0 : (0 <= w * H)%Q) by nra.
  assert (U1 : (w * H * T1 <= w * H * T2)%Q) by nra.
  assert (U2 : (0 <= w * H * T1)%Q) by nra.
  assert (U3 : (w * H * T1 * inject_Z b1 <= w * H * T2 * inject_Z b2)%Q) by nra.
  setoid_replace ((w * H * (inject_Z b1 / 8) * T1 + (1024 + inject_Z c1 * 3)) / 2)%Q
    with ((w * H * T1 * inject_Z b1) * (1 # 16) + (512 + inject_Z c1 * (3 # 2)))%Q by (field; discriminate).
  setoid_replace ((w * H * (inject_Z b2 / 8) * T2 + (1024 + inject_Z c2 * 3)) / 2)%Q
    with ((w * H * T2 * inject_Z b2) * (1 # 16) + (512 + inject_Z c2 * (3 # 2)))%Q by (field; discriminate).
  lra.
Qed.

Lemma estimate_value_lower (w H T : Q) (b c : Z) :
  (0 <= w)%Q -> (0 <= H)%Q -> (0 <= T)%Q -> 0 <= b ->
  mathRound ((1024 + inject_Z c * 3) / 2)
  <= mathRound ((w * H * (inject_Z b / 8) * T + (1024 + inject_Z c * 3)) / 2).
Proof.
  intros Hw HH HT Hb. apply mathRound_mono.
  assert (B0 : (0 <= inject_Z b)%Q) by (change 0%Q with (inject_Z 0); rewrite <- Zle_Qle; lia).
  assert (U : (0 <= w * H * T * inject_Z b)%Q) by (repeat apply Qmult_le_0_compat; assumption).
  setoid_replace ((w * H * (inject_Z b / 8) * T + (1024 + inject_Z c * 3)) / 2)%Q
    with ((w * H * T * inject_Z b) * (1 # 16) + (1024 + inject_Z c * 3) / 2)%Q by (field; discriminate).
  lra.
Qed.

Lemma ratio_height_nonneg (w ar : Q) : (0 <= w)%Q -> (0 < ar)%Q ->
  (0 <= inject_Z (mathRound (w / ar)))%Q.
Proof.
  intros Hw Har. change 0%Q with (inject_Z 0). rewrite <- Zle_Qle. apply mathRound_nonneg.
  apply Qle_shift_div_l; [exact Har|]. rewrite Qmult_0_l. exact Hw.
Qed.

Lemma frames_nonneg (d fr : Q) : (0 <= d)%Q -> (0 <= fr)%Q ->
  (0 <= inject_Z (mathRound (d * fr)))%Q.
Proof.
  intros Hd Hfr. change 0%Q with (inject_Z 0). rewrite <- Zle_Qle. apply mathRound_nonneg.
  apply Qmult_le_0_compat; assumption.
Qed.

Lemma ar_nonzero (ar : Q) : (0 < ar)%Q -> ~ (ar == 0)%Q.
Proof. intros H E. rewrite E in H. discriminate H. Qed.

Lemma jsMul_NaN_r (x : num) : jsMul x NaN = NaN.
Proof. destruct x; reflexivity. Qed.

Lemma estimate_object_color (md : JsVideoMetadata) (s : GifSettings) :
  colorCounts (g_quality s) = VObject -> estimateGifSize md s = Some NaN.
Proof.
  intros H. unfold estimateGifSize, gifSizeFromCounts. rewrite H. cbn [jsTruthy toNumber mathLog2 jsDiv].
  rewrite jsMul_NaN_r. reflexivity.
Qed.

Lemma colorCounts_prototype (k : string) : In k objectPrototypeKeys -> colorCounts k = VObject.
Proof. intros H. repeat (destruct H as [<-|H]; [reflexivity|]). destruct H. Qed.

Lemma colorCounts_other (k : string) :
  ~ In k ("low" :: "medium" :: "high" :: objectPrototypeKeys)%string -> colorCounts k = VUndefined.
Proof.
  intros H. unfold colorCounts.
  destruct (String.eqb_spec k "low") as [->|_]; [destruct H; left; reflexivity|].
  destruct (String.eqb_spec k "medium") as [->|_]; [destruct H; right; left; reflexivity|].
  destruct (String.eqb_spec k "high") as [->|_]; [destruct H; right; right; left; reflexivity|].
  destruct (existsb (String.eqb k) objectPrototypeKeys) eqn:E; [|reflexivity].
  apply existsb_exists in E as [x [Hx Ex]]. apply String.eqb_eq in Ex. subst x.
  destruct H. right; right; right. exact Hx.
Qed.

(** * Properties of the display helpers *)

(** [formatEstimatedGifSize] formats the size with [formatFileSize]; its
    level is safe below 8 MiB, warning below 12 MiB and danger otherwise, a
    [NaN] size included; exactly the safe level comes without a message. *)
Theorem formatEstimatedGifSize_spec (x : num) :
  formatted (formatEstimatedGifSize x) = formatFileSize x /\
  warningLevel (formatEstimatedGifSize x) =
    (if isNaN x then Danger
     else if jsLt x (Fin 8388608) then Safe
     else if jsLt x (Fin 12582912) then Warning
     else Danger) /\
  (message (formatEstimatedGifSize x) = None <-> warningLevel (formatEstimatedGifSize x) = Safe).
Proof.
  split; [|split; [apply formatEstimatedGifSize_level|]].
  - unfold formatEstimatedGifSize. destruct (jsLt _ (Fin 8)); [reflexivity|].
    destruct (jsLt _ (Fin 12)); reflexivity.
  - unfold formatEstimatedGifSize. destruct (jsLt _ (Fin 8)); [split; reflexivity|].
    destruct (jsLt _ (Fin 12)); split; discriminate.
Qed.

Lemma counts_formula (w h T : Q) (q : string) (c b : Z) :
  colorCounts q = VNum (Fin (inject_Z c)) -> c <> 0 ->
  mathLog2 (Fin (inject_Z c)) = Some (Fin (inject_Z b)) ->
  gifSizeFromCounts (Fin w) (Fin h) (Fin T) q =
    Some (Fin (inject_Z (mathRound ((w * h * (inject_Z b / 8) * T + (1024 + inject_Z c * 3)) / 2)))).
Proof.
  intros Hc Hc0 Hb. unfold gifSizeFromCounts. rewrite Hc.
  assert (Ec : Qeq_bool (inject_Z c) 0 = false).
  { apply not_true_iff_false. intros E. apply Qeq_bool_eq in E. unfold Qeq in E. cbn in E. lia. }
  cbn [jsTruthy numTruthy]. rewrite Ec. cbn [negb toNumber]. rewrite Hb.
  cbn [jsDiv jsRound jsMul jsAdd]. reflexivity.
Qed.

Lemma inject_Z_nonneg (n : Z) : 0 <= n -> (0 <= inject_Z n)%Q.
Proof. intros H. change 0%Q with (inject_Z 0). rewrite <- Zle_Qle. exact H. Qed.

(** [estimateGifSize] hands the target width, the rounded target height
    and the rounded frame count to [gifSizeFromCounts]. Take whole values
    [w <= 4096], [h <= 65536] and [F <= 2^20] for these. Then the low,
    medium and high qualities give whole-byte estimates with low <= medium
    <= high, at least 608, 704 and 896 bytes, and warning levels in the
    same order. In this range every double operation after the rounding
    is exact, so the model's exact values are what JS computes:
    [log2] of 64, 128 and 256 is 6, 7 and 8, a third of them over 8 is a
    multiple of 1/8, [w * h <= 2^28], the base size is a multiple of 1/8
    below [2^48], and adding the overhead, halving and [Math.round] stay
    within the integers and halves below [2^53]. *)
Theorem estimateGifSize_quality_order (w h F : Z) :
  0 <= w <= 4096 -> 0 <= h <= 65536 -> 0 <= F <= 2 ^ 20 ->
  (forall md s, estimateGifSize md s =
     gifSizeFromCounts (g_size s) (jsRound (jsDiv (g_size s) (m_aspectRatio md)))
       (jsRound (jsMul (match g_duration s with
                        | Some d => if numTruthy d then d else m_duration md
                        | None => m_duration md
                        end) (g_frameRate s)))
       (g_quality s)) /\
  exists lo me hi,
    gifSizeFromCounts (Fin (inject_Z w)) (Fin (inject_Z h)) (Fin (inject_Z F)) "low"
      = Some (Fin (inject_Z lo)) /\
    gifSizeFromCounts (Fin (inject_Z w)) (Fin (inject_Z h)) (Fin (inject_Z F)) "medium"
      = Some (Fin (inject_Z me)) /\
    gifSizeFromCounts (Fin (inject_Z w)) (Fin (inject_Z h)) (Fin (inject_Z F)) "high"
      = Some (Fin (inject_Z hi)) /\
    608 <= lo <= me /\ me <= hi /\ 704 <= me /\ 896 <= hi /\
    levelRank (warningLevel (formatEstimatedGifSize (Fin (inject_Z lo))))
      <= levelRank (warningLevel (formatEstimatedGifSize (Fin (inject_Z me)))) /\
    levelRank (warningLevel (formatEstimatedGifSize (Fin (inject_Z me))))
      <= levelRank (warningLevel (formatEstimatedGifSize (Fin (inject_Z hi)))).
Proof.
  intros Hw Hh HF. split; [reflexivity|].
  pose proof (inject_Z_nonneg w ltac:(lia)) as Hw0.
  pose proof (inject_Z_nonneg h ltac:(lia)) as HH.
  pose proof (inject_Z_nonneg F ltac:(lia)) as HT.
  pose proof (counts_formula (inject_Z w) (inject_Z h) (inject_Z F) "low" 64 6
    eq_refl ltac:(lia) mathLog2_64) as El.
  pose proof (counts_formula (inject_Z w) (inject_Z h) (inject_Z F) "medium" 128 7
    eq_refl ltac:(lia) mathLog2_128) as Em.
  pose proof (counts_formula (inject_Z w) (inject_Z h) (inject_Z F) "high" 256 8
    eq_refl ltac:(lia) mathLog2_256) as Eh.
  do 3 eexists. split; [exact El|]. split; [exact Em|]. split; [exact Eh|].
  pose proof (estimate_value_mono _ _ _ _ 6 7 64 128 Hw0 HH HT (Qle_refl _) ltac:(lia) ltac:(lia)) as M1.
  pose proof (estimate_value_mono _ _ _ _ 7 8 128 256 Hw0 HH HT (Qle_refl _) ltac:(lia) ltac:(lia)) as M2.
  pose proof (estimate_value_lower (inject_Z w) _ _ 6 64 Hw0 HH HT ltac:(lia)) as L1.
  pose proof (estimate_value_lower (inject_Z w) _ _ 7 128 Hw0 HH HT ltac:(lia)) as L2.
  pose proof (estimate_value_lower (inject_Z w) _ _ 8 256 Hw0 HH HT ltac:(lia)) as L3.
  change (mathRound ((1024 + inject_Z 64 * 3) / 2)) with 608 in L1.
  change (mathRound ((1024 + inject_Z 128 * 3) / 2)) with 704 in L2.
  change (mathRound ((1024 + inject_Z 256 * 3) / 2)) with 896 in L3.
  split; [lia|]. split; [lia|]. split; [lia|]. split; [lia|].
  split; apply level_mono; rewrite <- Zle_Qle; assumption.
Qed.

(** The quality lookup of [estimateGifSize] goes through a plain object: a
    quality that names an [Object.prototype] member (such as ["toString"])
    yields a [NaN] estimate, and any other unknown quality falls back to the
    medium estimate. *)
Theorem estimateGifSize_quality_lookup (md : JsVideoMetadata) (s : GifSettings) :
  (In (g_quality s) objectPrototypeKeys -> estimateGifSize md s = Some NaN) /\
  (~ In (g_quality s) ("low" :: "medium" :: "high" :: objectPrototypeKeys)%string ->
   estimateGifSize md s = estimateGifSize md (withQuality s "medium")).
Proof.
  split.
  - intros H. apply estimate_object_color, colorCounts_prototype, H.
  - intros H. unfold estimateGifSize, gifSizeFromCounts.
    cbn [withQuality g_quality g_size g_frameRate g_duration].
    rewrite (colorCounts_other _ H). reflexivity.
Qed.

(** The [settings.duration || metadata.duration] fallback: a [NaN] or zero
    override counts as absent, and a truthy override makes the estimate
    independent of the metadata's duration. *)
Theorem estimateGifSize_duration_fallback (md : JsVideoMetadata) (s : GifSettings) :
  estimateGifSize md (withDuration s (Some NaN)) = estimateGifSize md (withDuration s None) /\
  (forall q, (q == 0)%Q ->
     estimateGifSize md (withDuration s (Some (Fin q))) = estimateGifSize md (withDuration s None)) /\
  (forall d md', numTruthy d = true -> m_aspectRatio md' = m_aspectRatio md ->
     estimateGifSize md' (withDuration s (Some d)) = estimateGifSize md (withDuration s (Some d))).
Proof.
  split; [reflexivity|]. split.
  - intros q Hq. unfold estimateGifSize, gifSizeFromCounts. cbn [withDuration g_duration numTruthy].
    apply Qeq_bool_iff in Hq. rewrite Hq. reflexivity.
  - intros d md' Hd Har. unfold estimateGifSize, gifSizeFromCounts. cbn [withDuration g_duration].
    rewrite Hd, Har. reflexivity.
Qed.

(** In the range of [estimateGifSize_quality_order] (where the model's
    exact values are the doubles JS computes) and for a known quality, a
    larger rounded frame count never gives a smaller estimate. *)
Theorem estimateGifSize_duration_mono (w h F1 F2 : Z) (q : string) :
  0 <= w <= 4096 -> 0 <= h <= 65536 -> 0 <= F1 <= F2 -> F2 <= 2 ^ 20 ->
  In q ["low"; "medium"; "high"]%string ->
  exists e1 e2,
    gifSizeFromCounts (Fin (inject_Z w)) (Fin (inject_Z h)) (Fin (inject_Z F1)) q
      = Some (Fin (inject_Z e1)) /\
    gifSizeFromCounts (Fin (inject_Z w)) (Fin (inject_Z h)) (Fin (inject_Z F2)) q
      = Some (Fin (inject_Z e2)) /\
    e1 <= e2.
Proof.
  intros Hw Hh HF HF2 Hq.
  pose proof (inject_Z_nonneg w ltac:(lia)) as Hw0.
  pose proof (inject_Z_nonneg h ltac:(lia)) as HH.
  pose proof (inject_Z_nonneg F1 ltac:(lia)) as HT.
  assert (HT12 : (inject_Z F1 <= inject_Z F2)%Q) by (rewrite <- Zle_Qle; lia).
  assert (K : exists c b, colorCounts q = VNum (Fin (inject_Z c)) /\ c <> 0 /\
                0 <= b /\ mathLog2 (Fin (inject_Z c)) = Some (Fin (inject_Z b))).
  { destruct Hq as [<-|[<-|[<-|[]]]];
    [exists 64, 6 | exists 128, 7 | exists 256, 8]; repeat split; try lia; reflexivity. }
  destruct K as (c & b & Hc & Hc0 & Hb0 & Hb).
  pose proof (counts_formula (inject_Z w) (inject_Z h) (inject_Z F1) q c b Hc Hc0 Hb) as E1.
  pose proof (counts_formula (inject_Z w) (inject_Z h) (inject_Z F2) q c b Hc Hc0 Hb) as E2.
  do 2 eexists. split; [exact E1|]. split; [exact E2|].
  apply estimate_value_mono; auto; lia.
Qed.


(** ** The HTML5 and FFmpeg tiers and the cascade *)

Lemma fb_run_app (n : Z) (a b : list FbEvent) (st : FbState) :
  fb_run n (a ++ b) st = fb_run n b (fb_run n a st).
Proof. unfold fb_run. apply fold_left_app. Qed.

Lemma fb_run_cons (n : Z) (ev : FbEvent) (evs : list FbEvent) (st : FbState) :
  fb_run n (ev :: evs) st = fb_run n evs (fb_step n st ev).
Proof. reflexivity. Qed.

Lemma settle_some (p : option FbResult) (r : FbResult) (x : FbResult) :
  p = Some x -> settle p r = Some x.
Proof. intros ->. reflexivity. Qed.

Lemma fb_step_settled (n : Z) (st : FbState) (ev : FbEvent) (x : FbResult) :
  fb_settled st = Some x -> fb_settled (fb_step n st ev) = Some x.
Proof.
  intros H. destruct ev as [d w h| |]; cbn [fb_step].
  - unfold checkMetadata. destruct (fallbackAccepts d w h); [apply settle_some, H|].
    destruct (maxMetadataChecks <=? _); [apply settle_some, H | exact H].
  - destruct (fb_timer st); [apply settle_some, H | exact H].
  - destruct (fb_inDom st); [apply settle_some, H | exact H].
Qed.

Lemma fb_run_settled (n : Z) (evs : list FbEvent) (st : FbState) (x : FbResult) :
  fb_settled st = Some x -> fb_settled (fb_run n evs st) = Some x.
Proof.
  revert st. induction evs as [|ev evs IH]; intros st H; [exact H|].
  apply IH, fb_step_settled, H.
Qed.


Lemma fb_step_inv (n : Z) (st : FbState) (ev : FbEvent) : fb_inv st -> fb_inv (fb_step n st ev).
Proof.
  destruct st as [c p t i]. unfold fb_inv. cbn [fb_settled fb_timer fb_inDom]. intros H.
  destruct ev as [d w h| |]; cbn [fb_step]; unfold checkMetadata, fb_finish;
    cbn [fb_settled fb_timer fb_inDom fb_count].
  - destruct (fallbackAccepts d w h); [destruct p; reflexivity|].
    destruct (maxMetadataChecks <=? c + 1); [destruct p; reflexivity|]. exact H.
  - destruct t; [destruct p; reflexivity|]. exact H.
  - destruct i; [destruct p; reflexivity|]. destruct p; [reflexivity|]. destruct H; discriminate.
Qed.

Lemma fb_run_inv (n : Z) (evs : list FbEvent) (st : FbState) : fb_inv st -> fb_inv (fb_run n evs st).
Proof.
  revert st. induction evs as [|ev evs IH]; intros st H; [exact H|].
  apply IH, fb_step_inv, H.
Qed.

Lemma fb_rejected_checks (n : Z) (pre : list (num * Z * Z)) (c : Z) :
  Forall (fun x => readingAccepted x = false) pre -> c + Z.of_nat (List.length pre) < maxMetadataChecks ->
  fb_run n (map readingEvent pre)
    {| fb_count := c; fb_settled := None; fb_timer := true; fb_inDom := true |} =
    {| fb_count := c + Z.of_nat (List.length pre); fb_settled := None; fb_timer := true; fb_inDom := true |}.
Proof.
  revert c. induction pre as [|[[d w] h] pre IH]; intros c Hf Hc.
  - cbn. rewrite Z.add_0_r. reflexivity.
  - inversion Hf as [|? ? Hx Hrest]; subst. cbn [map List.length] in *.
    cbn [fb_run fold_left readingEvent fb_step]. unfold checkMetadata. cbn [readingAccepted] in Hx.
    cbn [fb_count fb_settled fb_timer fb_inDom]. rewrite Hx.
    rewrite (proj2 (Z.leb_gt _ _)) by lia.
    specialize (IH (c + 1) Hrest ltac:(lia)). unfold fb_run in IH. rewrite IH.
    f_equal. lia.
Qed.

Lemma primary_duration_ok (d : num) :
  (isNaN d || jsLe d (Fin 0)) = negb (negb (isNaN d) && jsLt (Fin 0) d).
Proof. destruct d; reflexivity. Qed.

Lemma resolution_ok (w h : Z) :
  ((w =? 0) || (h =? 0) || (w <=? 0) || (h <=? 0)) = negb ((0 <? w) && (0 <? h)).
Proof.
  destruct (Z.eqb_spec w 0), (Z.eqb_spec h 0), (Z.leb_spec w 0), (Z.leb_spec h 0),
    (Z.ltb_spec 0 w), (Z.ltb_spec 0 h); cbn; try reflexivity; lia.
Qed.


Lemma infnan_mul_l (a : Q) (t : num) : (0 <= a)%Q -> isInfOrNaN t -> isInfOrNaN (jsMul (Fin a) t).
Proof.
  intros Ha [->| ->]; [|right; reflexivity]. cbn [jsMul jsSign].
  destruct (Qltb 0 a) eqn:E1; [left; reflexivity|].
  destruct (Qltb a 0) eqn:E2; [apply Qltb_iff in E2; lra | right; reflexivity].
Qed.

Lemma infnan_add (t : num) (c : Q) : isInfOrNaN t -> isInfOrNaN (jsAdd t (Fin c)).
Proof. intros [->| ->]; [left|right]; reflexivity. Qed.

Lemma infnan_div2 (t : num) : isInfOrNaN t -> isInfOrNaN (jsDiv t (Fin 2)).
Proof. intros [->| ->]; [left|right]; reflexivity. Qed.

Lemma infnan_round (t : num) : isInfOrNaN t -> isInfOrNaN (jsRound t).
Proof. intros [->| ->]; [left|right]; reflexivity. Qed.

Lemma infnan_frames (fr : Q) : (0 <= fr)%Q -> isInfOrNaN (jsRound (jsMul PosInf (Fin fr))).
Proof.
  intros H. cbn [jsMul jsSign]. destruct (Qltb 0 fr) eqn:E1; [left; reflexivity|].
  destruct (Qltb fr 0) eqn:E2; [apply Qltb_iff in E2; lra | right; reflexivity].
Qed.

Lemma infnan_display (t : num) : isInfOrNaN t ->
  formatEstimatedGifSize t =
    {| formatted := "NaN undefined"; warningLevel := Danger; message := Some SizeVeryLarge |}.
Proof. intros [->| ->]; reflexivity. Qed.

Lemma mp4_short_throw (k : nat) (file : bytes) :
  len file < 12 -> snd (parseMP4Metadata (S (S k)) file) = Some Throw.
Proof.
  intros Hn. pose proof (len_nonneg file) as H0. unfold parseMP4Metadata.
  replace (Z.min (512 * 1024) (len file)) with (len file) by lia.
  replace (Z.min (1024 * 1024) (len file)) with (len file) by lia.
  replace (Z.max 0 (len file - len file)) with 0 by lia.
  destruct (tryParseMP4Chunk_short k file Hn) as [r [E C]].
  rewrite E, C. rewrite (proj2 (Z.leb_le _ _)) by lia. reflexivity.
Qed.

Lemma avi_short_throw (k : nat) (file : bytes) :
  len file < 12 -> parseAVIMetadata (S (S k)) file = Some Throw.
Proof.
  intros Hn. pose proof (len_nonneg file) as H0. unfold parseAVIMetadata.
  replace (Z.min (64 * 1024) (len file)) with (len file) by lia.
  rewrite jsSlice_whole. cbn [while_].
  rewrite (proj2 (Z.ltb_ge _ _)) by lia. reflexivity.
Qed.

Lemma binary_ok (fuel : nat) (file : bytes) (r : VideoMetadata) :
  getVideoMetadataFromBinary fuel file = Some (Ok r) ->
  isComplete r = true /\ fileSize r = len file /\
  aspectRatio r = (inject_Z (width r) / inject_Z (height r))%Q.
Proof.
  unfold getVideoMetadataFromBinary. intros H.
  destruct (String.eqb _ "RIFF"); [destruct (String.eqb _ "AVI ")|].
  - exact (parseAVIMetadata_ok _ _ _ H).
  - exact (parseMP4Metadata_ok _ _ _ H).
  - exact (parseMP4Metadata_ok _ _ _ H).
Qed.

(** * Properties of the tiers *)

(** The checks of [getVideoMetadataPrimary] and of the fallback's
    [checkMetadata] accept exactly the same readings; the primary check
    reports a duration error first and a resolution error otherwise. *)
Theorem html5_validators_agree (d : num) (w h fileSize : Z) :
  primaryValidate d w h fileSize =
    if fallbackAccepts d w h then inr (html5Metadata d w h fileSize)
    else if negb (isNaN d) && jsLt (Fin 0) d then inl ResolutionError
    else inl DurationError.
Proof.
  unfold primaryValidate, fallbackAccepts.
  rewrite primary_duration_ok, resolution_ok.
  destruct (negb (isNaN d) && jsLt (Fin 0) d); [|reflexivity]. cbn [negb andb].
  destruct ((0 <? w) && (0 <? h)) eqn:E; rewrite ?andb_assoc, ?E; reflexivity.
Qed.

(** An [Infinity] duration (as browsers report for some streams) passes both
    HTML5 checks; [formatDuration] then shows ["Infinity:NaN:NaN"] and the
    size estimate formats as ["NaN undefined"] at the danger level. *)
Theorem infinite_duration_accepted (w h fileSize : Z) (s : GifSettings) (sw fr : Q) :
  0 < w -> 0 < h -> g_size s = Fin sw -> (0 <= sw)%Q -> g_duration s = None ->
  g_frameRate s = Fin fr -> (0 <= fr)%Q -> In (g_quality s) ["low"; "medium"; "high"]%string ->
  primaryValidate PosInf w h fileSize = inr (html5Metadata PosInf w h fileSize) /\
  fallbackAccepts PosInf w h = true /\
  formatDuration (m_duration (html5Metadata PosInf w h fileSize)) = "Infinity:NaN:NaN"%string /\
  exists x, estimateGifSize (html5Metadata PosInf w h fileSize) s = Some x /\
    formatEstimatedGifSize x =
      {| formatted := "NaN undefined"; warningLevel := Danger; message := Some SizeVeryLarge |}.
Proof.
  intros Hw Hh Hs Hs0 Hsd Hfr Hfr0 Hq.
  assert (Ea : fallbackAccepts PosInf w h = true).
  { unfold fallbackAccepts. cbn. rewrite (proj2 (Z.ltb_lt 0 w) Hw), (proj2 (Z.ltb_lt 0 h) Hh).
    reflexivity. }
  split; [rewrite html5_validators_agree, Ea; reflexivity|].
  split; [exact Ea|]. split; [reflexivity|].
  assert (K : exists c b, colorCounts (g_quality s) = VNum (Fin (inject_Z c)) /\ c <> 0 /\
                0 <= b /\ mathLog2 (Fin (inject_Z c)) = Some (Fin (inject_Z b))).
  { destruct Hq as [<-|[<-|[<-|[]]]];
    [exists 64, 6 | exists 128, 7 | exists 256, 8]; repeat split; try lia; reflexivity. }
  destruct K as (c & b & Hc & Hc0 & Hb0 & Hb).
  assert (Ec : Qeq_bool (inject_Z c) 0 = false).
  { apply not_true_iff_false. intros E. apply Qeq_bool_eq in E. unfold Qeq in E. cbn in E. lia. }
  set (ar := (inject_Z w / inject_Z h)%Q).
  assert (Har : (0 < ar)%Q).
  { unfold ar. apply Qlt_shift_div_l; [change 0%Q with (inject_Z 0); rewrite <- Zlt_Qlt; exact Hh|].
    rewrite Qmult_0_l. change 0%Q with (inject_Z 0). rewrite <- Zlt_Qlt. exact Hw. }
  assert (Eh : Qeq_bool (inject_Z h) 0 = false).
  { apply not_true_iff_false. intros E. apply Qeq_bool_eq in E. unfold Qeq in E. cbn in E. lia. }
  assert (Ear : Qeq_bool ar 0 = false).
  { apply not_true_iff_false. intros E. apply Qeq_bool_eq in E. rewrite E in Har. discriminate Har. }
  unfold estimateGifSize, gifSizeFromCounts. rewrite Hs, Hsd, Hfr, Hc.
  cbn [html5Metadata m_aspectRatio m_duration jsTruthy numTruthy].
  rewrite Ec. cbn [negb toNumber]. rewrite Hb.
  cbn [jsDiv]. rewrite Eh. fold ar. rewrite Ear. cbn [jsRound jsMul].
  eexists. split; [reflexivity|]. apply infnan_display.
  apply infnan_round, infnan_div2, infnan_add.
  change (Qeq_bool 8 0) with false. cbv iota.
  cbn [jsMul]. apply infnan_mul_l; [|apply infnan_frames, Hfr0].
  pose proof (ratio_height_nonneg sw ar Hs0 Har) as HH.
  assert (B : (0 <= inject_Z b)%Q) by (change 0%Q with (inject_Z 0); rewrite <- Zle_Qle; exact Hb0).
  repeat apply Qmult_le_0_compat; try assumption. vm_compute. discriminate.
Qed.

(** The fallback's promise settles at most once: later events never change
    its outcome, and once it has settled the timeout is cleared. *)
Theorem fallback_settles_once (fileSize : Z) (evs : list FbEvent) :
  (forall st x more, fb_settled st = Some x -> fb_settled (fb_run fileSize more st) = Some x) /\
  (forall x, fb_settled (fb_run fileSize evs fb_start) = Some x ->
     fb_timer (fb_run fileSize evs fb_start) = false).
Proof.
  split.
  - intros st x more H. apply fb_run_settled, H.
  - intros x H. pose proof (fb_run_inv fileSize evs fb_start (conj eq_refl eq_refl)) as I.
    unfold fb_inv in I. rewrite H in I. exact I.
Qed.

(** After fewer than ten rejected readings, the next accepted reading
    resolves the fallback with that reading, a timeout rejects it as timed
    out and a load error as failed; the tenth rejected reading rejects it as
    too many checks, whatever follows. *)
Theorem fallback_check_outcome (fileSize : Z) (pre : list (num * Z * Z)) (rest : list FbEvent) :
  Forall (fun x => readingAccepted x = false) pre ->
  ((List.length pre < 10)%nat -> forall d w h, fallbackAccepts d w h = true ->
     fb_settled (fb_run fileSize (map readingEvent pre ++ EvCheck d w h :: rest) fb_start)
       = Some (FbResolved (html5Metadata d w h fileSize))) /\
  ((List.length pre < 10)%nat ->
     fb_settled (fb_run fileSize (map readingEvent pre ++ EvTimeout :: rest) fb_start)
       = Some (FbRejected FbTimedOut) /\
     fb_settled (fb_run fileSize (map readingEvent pre ++ EvError :: rest) fb_start)
       = Some (FbRejected FbLoadFailed)) /\
  (List.length pre = 10%nat ->
     fb_settled (fb_run fileSize (map readingEvent pre ++ rest) fb_start)
       = Some (FbRejected FbTooManyChecks)).
Proof.
  intros Hf. split; [|split].
  - intros Hl d w h Ha. rewrite fb_run_app.
    unfold fb_start. rewrite (fb_rejected_checks fileSize pre 0 Hf) by (unfold maxMetadataChecks; lia).
    rewrite fb_run_cons. apply fb_run_settled. cbn [fb_step]. unfold checkMetadata.
    rewrite Ha. reflexivity.
  - intros Hl. rewrite !fb_run_app.
    unfold fb_start. rewrite (fb_rejected_checks fileSize pre 0 Hf) by (unfold maxMetadataChecks; lia).
    split; rewrite fb_run_cons; apply fb_run_settled; reflexivity.
  - intros Hl. destruct pre as [|x pre] using rev_ind; [discriminate Hl|].
    rewrite length_app in Hl. cbn in Hl.
    apply Forall_app in Hf as [Hf Hx]. inversion Hx as [|? ? Hx1 _]; subst.
    rewrite map_app, <- app_assoc, fb_run_app.
    unfold fb_start. rewrite (fb_rejected_checks fileSize pre 0 Hf) by (unfold maxMetadataChecks; lia).
    cbn [map app]. rewrite fb_run_cons. apply fb_run_settled.
    destruct x as [[d w] h]. cbn [readingEvent fb_step]. unfold checkMetadata.
    cbn [readingAccepted] in Hx1. rewrite Hx1. cbn [fb_count].
    rewrite (proj2 (Z.leb_le _ _)) by (unfold maxMetadataChecks; lia). reflexivity.
Qed.

(** With no converter or any of the [FFmpegConverter] classes of
    ffmpeg-wasm.ts, none of which defines [extractMetadata], the FFmpeg tier
    always throws, so [getVideoMetadata] fails exactly when the binary and
    both HTML5 tiers fail. *)
Theorem ffmpeg_tier_always_throws (fuel : nat) (file : bytes) (primary fallback : jsoutcome)
    (converter : option ConverterClass) (loadOk : bool) (extract : jsoutcome) :
  (converter = None \/ exists c, converter = Some c /\ In c ffmpegConverterClasses) ->
  getVideoMetadataWithFFmpeg converter loadOk extract = JThrow /\
  (getVideoMetadata fuel file primary fallback (getVideoMetadataWithFFmpeg converter loadOk extract)
     = Some ([Binary; Primary; Fallback; FFmpeg], JThrow)
   <-> getVideoMetadataFromBinary fuel file = Some Throw /\ primary = JThrow /\ fallback = JThrow).
Proof.
  intros Hc.
  assert (E : getVideoMetadataWithFFmpeg converter loadOk extract = JThrow).
  { destruct Hc as [->|(c & -> & Hin)]; [reflexivity|]. cbn.
    destruct loadOk; [|reflexivity].
    repeat (destruct Hin as [<-|Hin]; [reflexivity|]). destruct Hin. }
  split; [exact E|]. rewrite E. unfold getVideoMetadata.
  destruct (getVideoMetadataFromBinary fuel file) as [[r|]|].
  - split; [discriminate | intros (H & _); discriminate H].
  - destruct primary, fallback; split; intros H; try discriminate H;
      try (destruct H as (_ & H & _); discriminate H);
      try (destruct H as (_ & _ & H); discriminate H); auto.
  - split; [discriminate | intros (H & _); discriminate H].
Qed.

(** When the binary parser succeeds, [getVideoMetadata] returns its result
    without trying another tier, with positive duration and dimensions, the
    file's size and [aspectRatio = width / height]. *)
Theorem getVideoMetadata_binary_first (fuel : nat) (file : bytes) (primary fallback ffmpeg : jsoutcome)
    (r : VideoMetadata) :
  getVideoMetadataFromBinary fuel file = Some (Ok r) ->
  getVideoMetadata fuel file primary fallback ffmpeg = Some ([Binary], JOk (jsOfMetadata r)) /\
  (0 < duration r)%Q /\ 0 < width r /\ 0 < height r /\ fileSize r = len file /\
  aspectRatio r = (inject_Z (width r) / inject_Z (height r))%Q.
Proof.
  intros H. destruct (binary_ok fuel file r H) as (Hc & Hs & Ha).
  destruct (isComplete_spec r Hc) as (Hd & Hw & Hh).
  unfold getVideoMetadata. rewrite H. repeat split; assumption.
Qed.

(** A file shorter than 12 bytes always fails the binary tier, so
    [getVideoMetadata] goes on to the HTML5 tiers and then to FFmpeg. *)
Theorem getVideoMetadata_short_file (k : nat) (file : bytes) (primary fallback ffmpeg : jsoutcome) :
  len file < 12 ->
  getVideoMetadata (S (S k)) file primary fallback ffmpeg =
    match primary with
    | JOk m => Some ([Binary; Primary], JOk m)
    | JThrow =>
        match fallback with
        | JOk m => Some ([Binary; Primary; Fallback], JOk m)
        | JThrow => Some ([Binary; Primary; Fallback; FFmpeg], ffmpeg)
        end
    end.
Proof.
  intros Hn. unfold getVideoMetadata.
  assert (E : getVideoMetadataFromBinary (S (S k)) file = Some Throw).
  { unfold getVideoMetadataFromBinary.
    destruct (String.eqb _ "RIFF"); [destruct (String.eqb _ "AVI ")|].
    - exact (avi_short_throw k file Hn).
    - exact (mp4_short_throw k file Hn).
    - exact (mp4_short_throw k file Hn). }
  rewrite E. destruct primary, fallback, ffmpeg; reflexivity.
Qed.


(** ** Locality and byte readers *)

Lemma jsSlice_prefix (f : bytes) (n : Z) : 0 <= n -> jsSlice f 0 n = firstn (Z.to_nat n) f.
Proof. intros H. rewrite jsSlice_nonneg by lia. rewrite Z.sub_0_r. reflexivity. Qed.

Lemma firstn_prefix_eq (f1 f2 : bytes) (k m : nat) :
  (k <= m)%nat -> firstn m f1 = firstn m f2 -> firstn k f1 = firstn k f2.
Proof.
  intros Hk H. replace k with (Nat.min k m) by lia.
  rewrite <- !firstn_firstn, H. reflexivity.
Qed.

Lemma parseAVIMetadata_local (fuel : nat) (f1 f2 : bytes) :
  len f1 = len f2 -> firstn (Z.to_nat 65536) f1 = firstn (Z.to_nat 65536) f2 ->
  parseAVIMetadata fuel f1 = parseAVIMetadata fuel f2.
Proof.
  intros Hl Hp. pose proof (len_nonneg f1).
  unfold parseAVIMetadata. rewrite Hl.
  rewrite !jsSlice_prefix by lia.
  rewrite (firstn_prefix_eq f1 f2 (Z.to_nat (Z.min (64 * 1024) (len f2))) (Z.to_nat 65536)) by (exact Hp || lia).
  reflexivity.
Qed.

Lemma tryParseMP4Chunk_local (fuel : nat) (f1 f2 : bytes) (s z : Z) :
  len f1 = len f2 -> jsSlice f1 s (s + z) = jsSlice f2 s (s + z) ->
  tryParseMP4Chunk fuel f1 s z = tryParseMP4Chunk fuel f2 s z.
Proof. intros Hl Hs. unfold tryParseMP4Chunk. rewrite Hs, Hl. reflexivity. Qed.

(** For a file over 10 MiB the binary tier reads only the first 512 KiB and
    the last 1 MiB: two files of the same length that agree there get the
    same result. *)
Theorem binary_tier_local (fuel : nat) (f1 f2 : bytes) :
  len f1 = len f2 -> 10 * 1024 * 1024 < len f1 ->
  firstn (Z.to_nat 524288) f1 = firstn (Z.to_nat 524288) f2 ->
  skipn (Z.to_nat (len f1 - 1048576)) f1 = skipn (Z.to_nat (len f1 - 1048576)) f2 ->
  getVideoMetadataFromBinary fuel f1 = getVideoMetadataFromBinary fuel f2.
Proof.
  intros Hl Hbig Hh Ht.
  assert (HM : snd (parseMP4Metadata fuel f1) = snd (parseMP4Metadata fuel f2)).
  { unfold parseMP4Metadata.
    replace (Z.min (512 * 1024) (len f1)) with 524288 by lia.
    replace (Z.min (512 * 1024) (len f2)) with 524288 by lia.
    replace (Z.min (1024 * 1024) (len f1)) with 1048576 by lia.
    replace (Z.min (1024 * 1024) (len f2)) with 1048576 by lia.
    rewrite (tryParseMP4Chunk_local fuel f1 f2 0 524288 Hl)
      by (rewrite !jsSlice_prefix by lia; exact Hh).
    rewrite <- Hl.
    replace (Z.max 0 (len f1 - 1048576)) with (len f1 - 1048576) by lia.
    rewrite (tryParseMP4Chunk_local fuel f1 f2 (len f1 - 1048576) 1048576 Hl)
      by (rewrite !jsSlice_nonneg by lia; rewrite Ht; reflexivity).
    rewrite (proj2 (Z.leb_gt (len f1) _)) by lia.
    destruct (tryParseMP4Chunk fuel f2 0 524288) as [r1|]; [|reflexivity].
    destruct (isComplete r1); [reflexivity|].
    destruct (tryParseMP4Chunk fuel f2 (len f1 - 1048576) 1048576) as [r2|]; [|reflexivity].
    destruct (isComplete r2); reflexivity. }
  assert (HA : parseAVIMetadata fuel f1 = parseAVIMetadata fuel f2).
  { apply parseAVIMetadata_local; [exact Hl|]. apply (firstn_prefix_eq _ _ _ (Z.to_nat 524288)); [lia|exact Hh]. }
  assert (H12 : jsSlice f1 0 12 = jsSlice f2 0 12).
  { rewrite !jsSlice_prefix by lia. apply (firstn_prefix_eq _ _ _ (Z.to_nat 524288)); [cbn; lia|exact Hh]. }
  unfold getVideoMetadataFromBinary. rewrite H12, HM, HA. reflexivity.
Qed.

(** [readUint32LE] is ToInt32 of the little-endian value of the four bytes. *)
Lemma readUint32LE_value (d : bytes) (o : Z) :
  readUint32LE d o =
  toInt32 (byteAt d (o + 3) * 16777216 + byteAt d (o + 2) * 65536
           + byteAt d (o + 1) * 256 + byteAt d o).
Proof.
  pose proof (byteAt_range d o) as H0. pose proof (byteAt_range d (o + 1)) as H1.
  pose proof (byteAt_range d (o + 2)) as H2. pose proof (byteAt_range d (o + 3)) as H3.
  set (b0 := byteAt d o) in *. set (b1 := byteAt d (o + 1)) in *.
  set (b2 := byteAt d (o + 2)) in *. set (b3 := byteAt d (o + 3)) in *.
  unfold readUint32LE. fold b0 b1 b2 b3.
  unfold js_or at 1 2 3. rewrite !toUint32_toInt32.
  rewrite !js_shl_byte by lia. rewrite (toUint32_small b0) by lia.
  rewrite (Z.lor_comm b0), (lor_shift_add b1 b0 8) by lia.
  rewrite (toUint32_small (b1 * 2 ^ 8 + b0)) by lia.
  rewrite (Z.lor_comm (b1 * 2 ^ 8 + b0)), (lor_shift_add b2 (b1 * 2 ^ 8 + b0) 16) by lia.
  rewrite (toUint32_small (b2 * 2 ^ 16 + (b1 * 2 ^ 8 + b0))) by lia.
  rewrite Z.lor_comm, (lor_shift_add b3 _ 24) by lia.
  f_equal. lia.
Qed.

Lemma byteAt_mk (pre post : bytes) (l : list Z) (i : Z) :
  Forall (fun z => 0 <= z <= 255) l -> 0 <= i < Z.of_nat (List.length l) ->
  byteAt (pre ++ mk l ++ post) (len pre + i) = nth (Z.to_nat i) l 0.
Proof.
  intros Hl Hi. unfold byteAt, len. pose proof (Nat2Z.is_nonneg (List.length pre)).
  rewrite (proj2 (Z.ltb_ge _ _)) by lia.
  replace (Z.to_nat (Z.of_nat (List.length pre) + i)) with (List.length pre + Z.to_nat i)%nat by lia.
  rewrite nth_error_app2 by lia. rewrite Nat.add_comm, Nat.add_sub.
  unfold mk. rewrite nth_error_app1 by (rewrite length_map; lia).
  rewrite nth_error_map.
  destruct (nth_error l (Z.to_nat i)) as [z|] eqn:E.
  - cbn. rewrite (nth_error_nth l (Z.to_nat i) 0 E).
    apply Forall_forall with (x := z) in Hl; [|eapply nth_error_In; exact E].
    destruct (Byte.of_nat (Z.to_nat z)) as [b|] eqn:Eb.
    + apply Byte.to_of_nat in Eb. lia.
    + apply Byte.of_nat_None_iff in Eb. lia.
  - apply nth_error_None in E. lia.
Qed.

Lemma be32_bytes (v : Z) : Forall (fun z => 0 <= z <= 255) (be32 v).
Proof.
  unfold be32. apply Forall_forall. intros z Hz.
  simpl in Hz. destruct Hz as [<-|[<-|[<-|[<-|[]]]]];
    match goal with |- 0 <= ?x mod 256 <= 255 => pose proof (Z.mod_pos_bound x 256) end; lia.
Qed.

Lemma le32_bytes (v : Z) : Forall (fun z => 0 <= z <= 255) (le32 v).
Proof. unfold le32. apply Forall_rev, be32_bytes. Qed.

Lemma be32_digits (v : Z) :
  0 <= v < 2 ^ 32 ->
  (Z.shiftr v 24 mod 256) * 16777216 + (Z.shiftr v 16 mod 256) * 65536
  + (Z.shiftr v 8 mod 256) * 256 + v mod 256 = v.
Proof.
  intros Hv. rewrite !Z.shiftr_div_pow2 by lia.
  change (2 ^ 24) with 16777216 in *. change (2 ^ 16) with 65536 in *.
  change (2 ^ 8) with 256 in *. change (2 ^ 32) with 4294967296 in *.
  Z.div_mod_to_equations. lia.
Qed.

(** [readUint32BE] and [readUint32LE] read back any 32-bit value written at
    that offset in big- or little-endian order, as a signed 32-bit integer. *)
Theorem readUint32_roundtrip (pre post : bytes) (v : Z) :
  0 <= v < 2 ^ 32 ->
  readUint32BE (pre ++ mk (be32 v) ++ post) (len pre)
    = (if v <? 2 ^ 31 then v else v - 2 ^ 32) /\
  readUint32LE (pre ++ mk (le32 v) ++ post) (len pre)
    = (if v <? 2 ^ 31 then v else v - 2 ^ 32).
Proof.
  intros Hv.
  assert (HB : forall i, 0 <= i < 4 ->
            byteAt (pre ++ mk (be32 v) ++ post) (len pre + i) = nth (Z.to_nat i) (be32 v) 0)
    by (intros i Hi; apply byteAt_mk; [apply be32_bytes | simpl; lia]).
  assert (HL : forall i, 0 <= i < 4 ->
            byteAt (pre ++ mk (le32 v) ++ post) (len pre + i) = nth (Z.to_nat i) (le32 v) 0)
    by (intros i Hi; apply byteAt_mk; [apply le32_bytes | simpl; lia]).
  pose proof (HB 0 ltac:(lia)) as B0. pose proof (HL 0 ltac:(lia)) as L0.
  rewrite Z.add_0_r in B0, L0.
  rewrite readUint32BE_value, readUint32LE_value, B0, L0, !HB, !HL by lia.
  change (Z.to_nat 1) with 1%nat. change (Z.to_nat 2) with 2%nat.
  change (Z.to_nat 3) with 3%nat. change (Z.to_nat 0) with 0%nat.
  unfold le32, be32. cbn [nth rev app].
  rewrite be32_digits by exact Hv.
  split; apply toInt32_range; lia.
Qed.


(** ** Witnesses *)

Lemma estimateGifSize_quality_order_witness :
  exists lo me hi,
    gifSizeFromCounts (Fin (inject_Z 480)) (Fin (inject_Z 270)) (Fin (inject_Z 150)) "low"
      = Some (Fin (inject_Z lo)) /\
    gifSizeFromCounts (Fin (inject_Z 480)) (Fin (inject_Z 270)) (Fin (inject_Z 150)) "medium"
      = Some (Fin (inject_Z me)) /\
    gifSizeFromCounts (Fin (inject_Z 480)) (Fin (inject_Z 270)) (Fin (inject_Z 150)) "high"
      = Some (Fin (inject_Z hi)) /\
    608 <= lo <= me /\ me <= hi /\ 704 <= me /\ 896 <= hi /\
    levelRank (warningLevel (formatEstimatedGifSize (Fin (inject_Z lo))))
      <= levelRank (warningLevel (formatEstimatedGifSize (Fin (inject_Z me)))) /\
    levelRank (warningLevel (formatEstimatedGifSize (Fin (inject_Z me))))
      <= levelRank (warningLevel (formatEstimatedGifSize (Fin (inject_Z hi)))).
Proof. apply (estimateGifSize_quality_order 480 270 150); lia. Defined.

Lemma estimateGifSize_duration_mono_witness :
  exists e1 e2,
    gifSizeFromCounts (Fin (inject_Z 480)) (Fin (inject_Z 270)) (Fin (inject_Z 75)) "medium"
      = Some (Fin (inject_Z e1)) /\
    gifSizeFromCounts (Fin (inject_Z 480)) (Fin (inject_Z 270)) (Fin (inject_Z 150)) "medium"
      = Some (Fin (inject_Z e2)) /\
    e1 <= e2.
Proof.
  apply (estimateGifSize_duration_mono 480 270 75 150 "medium"); [lia | lia | lia | lia |].
  right. left. reflexivity.
Defined.

Lemma infinite_duration_accepted_witness :
  primaryValidate PosInf 1280 720 1000000 = inr (html5Metadata PosInf 1280 720 1000000) /\
  fallbackAccepts PosInf 1280 720 = true /\
  formatDuration (m_duration (html5Metadata PosInf 1280 720 1000000)) = "Infinity:NaN:NaN"%string /\
  exists x, estimateGifSize (html5Metadata PosInf 1280 720 1000000) s0 = Some x /\
    formatEstimatedGifSize x =
      {| formatted := "NaN undefined"; warningLevel := Danger; message := Some SizeVeryLarge |}.
Proof.
  apply (infinite_duration_accepted 1280 720 1000000 s0 480 15); close_hyp.
Defined.

Lemma fallback_check_outcome_witness :
  Forall (fun x => readingAccepted x = false) [(Fin 0, 1280, 720)] /\
  ((List.length [(Fin 0, 1280, 720)] < 10)%nat -> forall d w h, fallbackAccepts d w h = true ->
     fb_settled (fb_run 1000000 (map readingEvent [(Fin 0, 1280, 720)] ++ EvCheck d w h :: []) fb_start)
       = Some (FbResolved (html5Metadata d w h 1000000))) /\
  ((List.length [(Fin 0, 1280, 720)] < 10)%nat ->
     fb_settled (fb_run 1000000 (map readingEvent [(Fin 0, 1280, 720)] ++ EvTimeout :: []) fb_start)
       = Some (FbRejected FbTimedOut) /\
     fb_settled (fb_run 1000000 (map readingEvent [(Fin 0, 1280, 720)] ++ EvError :: []) fb_start)
       = Some (FbRejected FbLoadFailed)) /\
  (List.length [(Fin 0, 1280, 720)] = 10%nat ->
     fb_settled (fb_run 1000000 (map readingEvent [(Fin 0, 1280, 720)] ++ []) fb_start)
       = Some (FbRejected FbTooManyChecks)).
Proof.
  assert (H : Forall (fun x => readingAccepted x = false) [(Fin 0, 1280, 720)])
    by (apply Forall_cons; [reflexivity | apply Forall_nil]).
  split; [exact H | exact (fallback_check_outcome 1000000 _ [] H)].
Defined.

Lemma ffmpeg_tier_always_throws_witness :
  getVideoMetadataWithFFmpeg (hd_error ffmpegConverterClasses) true (JOk md0) = JThrow /\
  (getVideoMetadata 2 short_file JThrow JThrow
     (getVideoMetadataWithFFmpeg (hd_error ffmpegConverterClasses) true (JOk md0))
     = Some ([Binary; Primary; Fallback; FFmpeg], JThrow)
   <-> getVideoMetadataFromBinary 2 short_file = Some Throw /\ JThrow = JThrow /\ JThrow = JThrow).
Proof.
  apply ffmpeg_tier_always_throws. right.
  exists (hd ({| classMethods := [] |}) ffmpegConverterClasses). split; [reflexivity | left; reflexivity].
Defined.

Lemma getVideoMetadata_binary_first_witness :
  exists r, getVideoMetadataFromBinary 10 mp4_file = Some (Ok r) /\
    getVideoMetadata 10 mp4_file JThrow JThrow JThrow = Some ([Binary], JOk (jsOfMetadata r)) /\
    (0 < duration r)%Q /\ 0 < width r /\ 0 < height r /\ fileSize r = len mp4_file /\
    aspectRatio r = (inject_Z (width r) / inject_Z (height r))%Q.
Proof.
  destruct (getVideoMetadataFromBinary 10 mp4_file) as [[r|]|] eqn:E;
    [|vm_compute in E; discriminate E..].
  exists r. split; [reflexivity|].
  exact (getVideoMetadata_binary_first 10 mp4_file JThrow JThrow JThrow r E).
Defined.

Lemma getVideoMetadata_short_file_witness :
  len short_file < 12 /\
  getVideoMetadata 2 short_file JThrow (JOk md0) JThrow = Some ([Binary; Primary; Fallback], JOk md0).
Proof.
  assert (H : len short_file < 12) by (vm_compute; reflexivity).
  split; [exact H | exact (getVideoMetadata_short_file 0 short_file JThrow (JOk md0) JThrow H)].
Defined.

Lemma readUint32_roundtrip_witness :
  readUint32BE (mk [1; 2] ++ mk (be32 3735928559) ++ mk [9]) 2 = -559038737 /\
  readUint32LE (mk [1; 2] ++ mk (le32 3735928559) ++ mk [9]) 2 = -559038737.
Proof. exact (readUint32_roundtrip (mk [1; 2]) (mk [9]) 3735928559 ltac:(lia)). Defined.

Lemma repeat_split_local (a b c : nat) :
  firstn a (repeat x00 (a + b + c)) = firstn a (repeat x00 a ++ repeat x01 b ++ repeat x00 c) /\
  skipn (a + b) (repeat x00 (a + b + c)) = skipn (a + b) (repeat x00 a ++ repeat x01 b ++ repeat x00 c).
Proof.
  rewrite !repeat_app, <- !app_assoc. split.
  - rewrite !firstn_app, !repeat_length, Nat.sub_diag, !firstn_O, !app_nil_r.
    rewrite !firstn_all2 by (rewrite repeat_length; lia). reflexivity.
  - rewrite !app_assoc, !(skipn_app (a + b) _ (repeat x00 c)), !length_app, !repeat_length.
    rewrite Nat.sub_diag, skipn_O.
    rewrite !skipn_all2 by (rewrite length_app, !repeat_length; lia). reflexivity.
Qed.

Lemma bigFile_parts :
  firstn (Z.to_nat 524288) bigFile1 = firstn (Z.to_nat 524288) bigFile2 /\
  skipn (Z.to_nat (len bigFile1 - 1048576)) bigFile1 = skipn (Z.to_nat (len bigFile1 - 1048576)) bigFile2.
Proof.
  unfold len, bigFile1, bigFile2. rewrite repeat_length.
  assert (E1 : Z.to_nat 10485761 = (Z.to_nat 524288 + Z.to_nat 8912897 + Z.to_nat 1048576)%nat) by lia.
  assert (E2 : Z.to_nat (Z.of_nat (Z.to_nat 10485761) - 1048576) = (Z.to_nat 524288 + Z.to_nat 8912897)%nat) by lia.
  rewrite E2, E1.
  generalize (Z.to_nat 524288) (Z.to_nat 8912897) (Z.to_nat 1048576). intros a b c.
  exact (repeat_split_local a b c).
Qed.

Lemma binary_tier_local_witness :
  getVideoMetadataFromBinary 10 bigFile1 = getVideoMetadataFromBinary 10 bigFile2.
Proof.
  apply binary_tier_local.
  - unfold len, bigFile1, bigFile2. rewrite !length_app, !repeat_length. lia.
  - unfold len, bigFile1. rewrite repeat_length. lia.
  - exact (proj1 bigFile_parts).
  - exact (proj2 bigFile_parts).
Defined.
